(** * Amazon-style search scraper: text normalizers, field extractor, crawl loop

    A shallow embedding of [app.py]: the helpers [parse_price] and
    [parse_rating], the BeautifulSoup queries of [find_product_blocks] and
    [extract_from_block], and the page loop of [scrape_amazon_search].

    Conventions of the embedding.
    - A Python [str] is a [string]; each [ascii] stands for the code point of
      the same number, so the texts covered are those of code points 0..255.
    - [Optional[...]] is [option]; [None] is [None].
    - A Python [float] obtained from text is kept as the exact decimal number
      the text denotes (sign and reduced fraction), or an infinity, or a NaN;
      the binary64 value is the correctly rounded image of that number.
    - The network is an oracle from the requested URL to the outcome of
      [requests.get] (a run requests each URL once); the run records its log
      records, its requests and its sleeps in a trace.  A response carries
      its content as BeautifulSoup parses it. *)

From Stdlib Require Import QArith Qabs Qpower Ascii String.
From stdpp Require Import base strings gmap list pretty.

Close Scope Q_scope.
Local Open Scope string_scope.

(** ** Characters and the [str] methods the program calls *)

Module PyStr.

Definition code (c : ascii) : N := N_of_ascii c.

Definition in_range (lo hi : N) (c : ascii) : bool :=
  ((lo <=? code c) && (code c <=? hi))%N.

(** ['0'..'9'] *)
Definition is_ascii_digit (c : ascii) : bool := in_range 48 57 c.

(** [str.isdigit] on one character: the ASCII digits and the superscripts
    U+00B2, U+00B3 and U+00B9. *)
Definition isdigit (c : ascii) : bool :=
  is_ascii_digit c || in_range 178 179 c || in_range 185 185 c.

(** [str.isspace] on one character. *)
Definition isspace (c : ascii) : bool :=
  in_range 9 13 c || in_range 28 32 c || in_range 133 133 c
  || in_range 160 160 c.

(** One character of [str.lower]. *)
Definition lower_char (c : ascii) : ascii :=
  if in_range 65 90 c || (in_range 192 222 c && negb (in_range 215 215 c))
  then ascii_of_N (code c + 32)
  else c.

Fixpoint lower (s : string) : string :=
  match s with
  | "" => ""
  | String c r => String (lower_char c) (lower r)
  end.

(** [not s] for a string. *)
Definition falsy (s : string) : bool :=
  match s with "" => true | _ => false end.

(** [not o] for an optional string: [None] and [""] are falsy. *)
Definition falsy_opt (o : option string) : bool :=
  match o with None => true | Some s => falsy s end.

(** [a or b] on optional strings. *)
Definition or_else (a b : option string) : option string :=
  if falsy_opt a then b else a.

Fixpoint lstrip (s : string) : string :=
  match s with
  | String c r => if isspace c then lstrip r else s
  | "" => ""
  end.

Fixpoint rstrip (s : string) : string :=
  match s with
  | "" => ""
  | String c r =>
      let r' := rstrip r in
      if falsy r' && isspace c then "" else String c r'
  end.

(** [s.strip()] *)
Definition strip (s : string) : string := rstrip (lstrip s).

(** [s.split()]: the maximal runs of non-whitespace characters.  [tok] is
    the run being collected. *)
Fixpoint split_from (tok : string) (s : string) : list string :=
  match s with
  | "" => if falsy tok then [] else [tok]
  | String c r =>
      if isspace c
      then (if falsy tok then split_from "" r else tok :: split_from "" r)
      else split_from (tok +:+ String c "") r
  end.

Definition split (s : string) : list string := split_from "" s.

(** [s.replace(old, new)] for a non-empty [old]: occurrences are replaced
    from left to right without overlap.  [skip] counts the characters of
    the occurrence just matched that are still to be passed over. *)
Fixpoint replace_go (old new : string) (skip : nat) (s : string) : string :=
  match s with
  | "" => ""
  | String c r =>
      match skip with
      | S k => replace_go old new k r
      | O =>
          if String.prefix old s
          then new +:+ replace_go old new (String.length old - 1) r
          else String c (replace_go old new 0 r)
      end
  end.

(** With an empty [old], Python puts [new] before every character and at
    the end. *)
Fixpoint interleave (new s : string) : string :=
  match s with
  | "" => new
  | String c r => new +:+ String c (interleave new r)
  end.

Definition replace (old new s : string) : string :=
  if falsy old then interleave new s else replace_go old new 0 s.

(** [sub in s] *)
Fixpoint contains (sub s : string) : bool :=
  String.prefix sub s ||
  match s with
  | "" => false
  | String _ r => contains sub r
  end.

(** Every character of [s] satisfies [p]. *)
Fixpoint all_chars (p : ascii -> bool) (s : string) : Prop :=
  match s with
  | "" => True
  | String c r => p c = true /\ all_chars p r
  end.

(** The first [k] characters of [s] satisfy [p]. *)
Fixpoint first_chars (p : ascii -> bool) (k : nat) (s : string) : Prop :=
  match k, s with
  | S k', String c r => p c = true /\ first_chars p k' r
  | _, _ => True
  end.

(** Tokens are not empty and hold no whitespace. *)
Definition token_like (t : string) : Prop :=
  t <> "" /\ all_chars (fun c => negb (isspace c)) t.

End PyStr.

(** ** [float(text)] *)

Module PyFloat.
Import PyStr.

(** The value of a parsed float: the exact decimal magnitude with its sign
    bit, an infinity, or a NaN. *)
Inductive pyfloat : Type :=
| FNum (neg : bool) (mag : Q)
| FInf (neg : bool)
| FNan.

(** The float literal written as the decimal [q]. *)
Definition lit (q : Q) : pyfloat :=
  FNum (Qnum q <? 0)%Z (Qred (Qabs q)).

(** [x >= 0] on floats: true for both zeros, false for NaN. *)
Definition ge_zero (x : pyfloat) : bool :=
  match x with
  | FNum neg mag => negb neg || (Qnum mag =? 0)%Z
  | FInf neg => negb neg
  | FNan => false
  end.

(** Underscores are accepted only between two digits and are dropped before
    the text is parsed.  [prev] is the character before [s]. *)
Fixpoint drop_underscores (prev : option ascii) (s : string) : option string :=
  match s with
  | "" => if bool_decide (prev = Some "_"%char) then None else Some ""
  | String c r =>
      if bool_decide (c = "_"%char)
      then
        match prev with
        | Some p => if is_ascii_digit p then drop_underscores (Some c) r else None
        | None => None
        end
      else if bool_decide (prev = Some "_"%char) && negb (is_ascii_digit c)
      then None
      else String c <$> drop_underscores (Some c) r
  end.

(** The characters [float] strips at both ends. *)
Definition float_space (c : ascii) : bool :=
  in_range 9 13 c || in_range 32 32 c || in_range 133 133 c
  || in_range 160 160 c.

Fixpoint lstrip_f (s : string) : string :=
  match s with
  | String c r => if float_space c then lstrip_f r else s
  | "" => ""
  end.

Fixpoint rstrip_f (s : string) : string :=
  match s with
  | "" => ""
  | String c r =>
      let r' := rstrip_f r in
      if falsy r' && float_space c then "" else String c r'
  end.

(** The longest prefix of ASCII digits, and what follows it. *)
Fixpoint span_digits (s : string) : string * string :=
  match s with
  | String c r =>
      if is_ascii_digit c
      then let '(ds, rest) := span_digits r in (String c ds, rest)
      else ("", s)
  | "" => ("", "")
  end.

Fixpoint digits_value_from (acc : N) (ds : string) : N :=
  match ds with
  | "" => acc
  | String c r => digits_value_from (10 * acc + (code c - 48))%N r
  end.

Definition digits_value (ds : string) : N := digits_value_from 0 ds.

(** An optional sign. *)
Definition take_sign (s : string) : bool * string :=
  match s with
  | String c r =>
      if bool_decide (c = "-"%char) then (true, r)
      else if bool_decide (c = "+"%char) then (false, r)
      else (false, s)
  | "" => (false, s)
  end.

(** [ip.fp] times ten to the [e]. *)
Definition decimal_value (ip fp : string) (e : Z) : Q :=
  Qred (inject_Z (Z.of_N (digits_value (ip +:+ fp)))
        * Qpower 10 (e - Z.of_nat (String.length fp)))%Q.

(** An unsigned decimal number with an optional exponent, the whole of [s]:
    digits, an optional point and digits, at least one digit in all, then
    optionally [e] or [E], an optional sign and at least one digit. *)
Definition parse_decimal (s : string) : option Q :=
  let '(ip, r1) := span_digits s in
  let '(fp, r2) :=
    match r1 with
    | String c r =>
        if bool_decide (c = "."%char) then span_digits r else ("", r1)
    | "" => ("", r1)
    end in
  if falsy ip && falsy fp then None
  else
    match r2 with
    | "" => Some (decimal_value ip fp 0)
    | String c r3 =>
        if bool_decide (c = "e"%char) || bool_decide (c = "E"%char)
        then
          let '(eneg, r4) := take_sign r3 in
          let '(ds, r5) := span_digits r4 in
          if falsy ds || negb (falsy r5) then None
          else
            let e := Z.of_N (digits_value ds) in
            Some (decimal_value ip fp (if eneg then - e else e))
        else None
    end.

(** The words [float] accepts besides numbers, in any letter case. *)
Definition parse_special (neg : bool) (s : string) : option pyfloat :=
  let w := lower s in
  if bool_decide (w = "inf") || bool_decide (w = "infinity")
  then Some (FInf neg)
  else if bool_decide (w = "nan") then Some FNan
  else None.

(** [float(s)]; [None] stands for the [ValueError]. *)
Definition float (s : string) : option pyfloat :=
  match drop_underscores None s with
  | None => None
  | Some t =>
      let u := rstrip_f (lstrip_f t) in
      let '(neg, body) := take_sign u in
      match parse_decimal body with
      | Some q => Some (FNum neg q)
      | None => parse_special neg body
      end
  end.

End PyFloat.

(** ** The text normalizers of [app.py] *)

Import PyStr PyFloat.

(** The loop of [parse_price] that collects the characters it keeps. *)
Definition price_char (ch : ascii) : bool :=
  isdigit ch || bool_decide (ch = "."%char).

Definition not_price_char (c : ascii) : bool := negb (price_char c).

Fixpoint keep_price_chars (cleaned : string) : string :=
  match cleaned with
  | "" => ""
  | String ch r =>
      if price_char ch then String ch (keep_price_chars r)
      else keep_price_chars r
  end.

Definition parse_price (price_text : option string) : option pyfloat :=
  match price_text with
  | None => None
  | Some text =>
      if falsy text then None
      else
        let cleaned := replace "US$" "" (replace "USD" "" (replace "," "" text)) in
        let s := keep_price_chars cleaned in
        if falsy s then None else float s
  end.

(** The loop of [parse_rating] over the tokens. *)
Fixpoint first_float (parts : list string) : option pyfloat :=
  match parts with
  | [] => None
  | token :: rest =>
      match float token with
      | Some val => Some val
      | None => first_float rest
      end
  end.

Definition parse_rating (rating_text : option string) : option pyfloat :=
  match rating_text with
  | None => None
  | Some text =>
      if falsy text then None
      else first_float (split (strip text))
  end.

(** ** The parsed page and the BeautifulSoup queries *)

Module Soup.

(** A node of the parsed tree: a text string, or a tag with its name, its
    attribute dictionary (each value as written in the page) and its
    children.  Comments and the strings of script and style elements, which
    [get_text] passes over, are not represented. *)
#[local] Unset Elimination Schemes.
Inductive node : Type :=
| Text (s : string)
| Tag (name : string) (attrs : gmap string string) (contents : list node).
#[local] Set Elimination Schemes.

(** [tag.descendants]: every node below [n], in document order. *)
Fixpoint descendants (n : node) : list node :=
  match n with
  | Text _ => []
  | Tag _ _ cs => flat_map (fun c => c :: descendants c) cs
  end.

(** [tag.get(key)] *)
Definition get (key : string) (n : node) : option string :=
  match n with
  | Text _ => None
  | Tag _ attrs _ => attrs !! key
  end.

(** What a query asks of one attribute: [True] (the attribute is there) or
    a string. *)
Inductive matcher : Type :=
| Present
| Equals (s : string).

Fixpoint join_space (l : list string) : string :=
  match l with
  | [] => ""
  | [x] => x
  | x :: r => x +:+ " " +:+ join_space r
  end.

(** [class] is kept by BeautifulSoup as the list of its whitespace-separated
    tokens; a string matches it when it equals one token, or the tokens
    joined by single spaces. *)
Definition class_matches (want value : string) : bool :=
  let tokens := split value in
  existsb (fun t => bool_decide (t = want)) tokens
  || bool_decide (join_space tokens = want).

Definition attr_matches (key : string) (m : matcher) (value : option string) : bool :=
  match m, value with
  | Present, Some _ => true
  | Present, None => false
  | Equals want, None => falsy want
  | Equals want, Some v =>
      if bool_decide (key = "class") then class_matches want v
      else bool_decide (v = want)
  end.

(** Does [n] answer the query (tag name, attribute constraints)? *)
Definition matches (name : option string) (attrs : list (string * matcher))
    (n : node) : bool :=
  match n with
  | Text _ => false
  | Tag nm _ _ =>
      match name with
      | Some want => bool_decide (nm = want)
      | None => true
      end
      && forallb (fun '(key, m) => attr_matches key m (get key n)) attrs
  end.

(** [tag.find_all(name, attrs)] and [tag.find(name, attrs)] *)
Definition find_all (name : option string) (attrs : list (string * matcher))
    (n : node) : list node :=
  filter (fun d => matches name attrs d = true) (descendants n).

Definition find_by (p : node -> bool) (n : node) : option node :=
  List.find p (descendants n).

Definition find (name : option string) (attrs : list (string * matcher))
    (n : node) : option node :=
  find_by (matches name attrs) n.

(** [tag.get_text(strip=True)]: the text strings below the tag, each one
    stripped, the empty ones dropped, joined without a separator. *)
Fixpoint stripped_strings (l : list node) : string :=
  match l with
  | [] => ""
  | Text s :: r =>
      let t := strip s in
      if falsy t then stripped_strings r else t +:+ stripped_strings r
  | Tag _ _ _ :: r => stripped_strings r
  end.

Definition get_text_strip (n : node) : string :=
  stripped_strings (descendants n).

(** [tag.string]: the single text string a tag wraps, if any. *)
Fixpoint tag_string (n : node) : option string :=
  match n with
  | Text s => Some s
  | Tag _ _ [c] => tag_string c
  | Tag _ _ _ => None
  end.

End Soup.

Import Soup.

(** ** [safe_text], [find_product_blocks], [extract_from_block] *)

Definition safe_text (elem : option node) : option string :=
  match elem with
  | None => None
  | Some e => Some (get_text_strip e)
  end.

Definition find_product_blocks (soup : node) : list node :=
  let blocks :=
    find_all (Some "div") [("data-component-type", Equals "s-search-result")] soup in
  if negb (bool_decide (blocks = [])) then blocks
  else
    let blocks :=
      find_all (Some "div") [("class", Equals "a-section a-spacing-medium")] soup in
    if negb (bool_decide (blocks = [])) then blocks
    else
      filter (fun d => falsy_opt (get "data-asin" d) = false)
             (find_all (Some "div") [] soup).

(** The dictionary [extract_from_block] returns. *)
Record product : Type := Product {
  title : option string;
  link : option string;
  price_raw : option string;
  price : option pyfloat;
  rating_raw : option string;
  rating : option pyfloat;
  author : option string
}.

Definition origin : string := "https://www.amazon.com".

Definition extract_title (block : node) : option string :=
  let title :=
    match find (Some "h2") [] block with
    | Some title_h2 =>
        let span := find (Some "span") [] title_h2 in
        or_else (safe_text span) (safe_text (Some title_h2))
    | None => None
    end in
  if falsy_opt title
  then
    let a_title := find (Some "a") [("class", Equals "a-link-normal a-text-normal")] block in
    or_else (safe_text a_title) title
  else title.

Definition extract_link (block : node) : option string :=
  match find (Some "a") [("href", Present)] block with
  | Some a_tag =>
      match get "href" a_tag with
      | Some href => Some (origin +:+ href)
      | None => None
      end
  | None => None
  end.

Definition extract_price_raw (block : node) : option string :=
  let price :=
    match find (Some "span") [("class", Equals "a-price")] block with
    | Some price_span =>
        safe_text (find (Some "span") [("class", Equals "a-offscreen")] price_span)
    | None => None
    end in
  if falsy_opt price
  then safe_text (find (Some "span") [("class", Equals "a-color-base")] block)
  else price.

Definition rating_phrase : string := "out of 5 stars".

Definition extract_rating_raw (block : node) : option string :=
  match find (Some "span") [("class", Equals "a-icon-alt")] block with
  | Some rating_span => safe_text (Some rating_span)
  | None =>
      match find None [("aria-label", Present)] block with
      | Some aria =>
          match get "aria-label" aria with
          | Some label => if contains rating_phrase label then Some label else None
          | None => None
          end
      | None => None
      end
  end.

(** The test of the byline query: [lambda s: s and "by " in s.lower()] on
    [tag.string]. *)
Definition byline_string (s : option string) : bool :=
  match s with
  | Some t => negb (falsy t) && contains "by " (lower t)
  | None => false
  end.

Definition extract_author (block : node) : option string :=
  let author :=
    match find (Some "div") [("class", Equals "a-row a-size-base a-color-secondary")] block with
    | Some author_container =>
        let a_auth := find (Some "a") [] author_container in
        or_else (safe_text a_auth) (safe_text (Some author_container))
    | None => None
    end in
  if falsy_opt author
  then
    match find_by (fun n => matches (Some "span") [] n && byline_string (tag_string n)) block with
    | Some byline => safe_text (Some byline)
    | None => author
    end
  else author.

Definition extract_from_block (block : node) : product :=
  let title := extract_title block in
  let link := extract_link block in
  let price := extract_price_raw block in
  let rating_text := extract_rating_raw block in
  let author := extract_author block in
  {| title := title;
     link := link;
     price_raw := price;
     price := parse_price price;
     rating_raw := rating_text;
     rating := parse_rating rating_text;
     author := author |}.

(** A result block as the site serves it, used in the examples below. *)
Definition sample_block (name href price stars : string) : node :=
  Tag "div" {[ "data-component-type" := "s-search-result" ]}
    [ Tag "h2" ∅ [ Tag "a" {[ "href" := href; "class" := "a-link-normal" ]}
                     [ Tag "span" ∅ [ Text name ] ] ];
      Tag "span" {[ "class" := "a-price" ]}
        [ Tag "span" {[ "class" := "a-offscreen" ]} [ Text price ] ];
      Tag "span" {[ "class" := "a-icon-alt" ]} [ Text stars ] ].

(** ** The crawl: [scrape_amazon_search] *)

(** What [requests.get] does for one URL: it raises a
    [requests.RequestException], or returns a response with its status code
    and its content, given here as BeautifulSoup parses it. *)
Inductive fetched : Type :=
| RequestException
| Response (status_code : Z) (soup : node).

(** The effects of a run, in the order the code performs them: the log
    records (with the values they print), the HTTP requests and the sleeps. *)
Inductive event : Type :=
| LogRequesting (url : string)
| Get (url : string)
| LogRequestFailed
| LogStatus (status_code : Z)
| LogNon200 (status_code : Z)
| LogFound (nblocks : nat) (page : Z)
| LogAdded (found_this_page : nat) (page : Z) (total : nat)
| Sleep (sec : Q).

(** The variables of the function that live across pages, and the effects so
    far. *)
Record crawl_state : Type := CrawlState {
  items : list product;
  seen : gset string;
  trace : list event
}.

(** How one pass through the body of the [while] loop ends. *)
Inductive outcome : Type :=
| Break (st : crawl_state)
| NextPage (st : crawl_state).

(** [max_items and len(items) >= max_items] *)
Definition cap_reached (max_items : option Z) (n : nat) : bool :=
  match max_items with
  | Some m => negb (m =? 0)%Z && (m <=? Z.of_nat n)%Z
  | None => false
  end.

(** The [for b in blocks] loop.  It returns [items], [seen] and
    [found_this_page]. *)
Fixpoint scan_blocks (max_items : option Z) (blocks : list node)
    (items : list product) (seen : gset string) (found_this_page : nat)
    : list product * gset string * nat :=
  match blocks with
  | [] => (items, seen, found_this_page)
  | b :: rest =>
      let data := extract_from_block b in
      if falsy_opt (title data)
      then scan_blocks max_items rest items seen found_this_page
      else
        match title data with
        | None => scan_blocks max_items rest items seen found_this_page
        | Some t =>
            if bool_decide (t ∈ seen)
            then scan_blocks max_items rest items seen found_this_page
            else
              let seen := {[ t ]} ∪ seen in
              let items := (items ++ [data])%list in
              let found_this_page := S found_this_page in
              if cap_reached max_items (length items)
              then (items, seen, found_this_page)
              else scan_blocks max_items rest items seen found_this_page
        end
  end.

Section Crawl.

Variable keyword : string.
Variable max_pages : Z.
Variable sleep_sec : Q.
Variable max_items : option Z.
(** The network. *)
Variable net : string -> fetched.

Definition base_query : string := replace " " "+" (strip keyword).

Definition page_url (page : Z) : string :=
  "https://www.amazon.com/s?k=" +:+ base_query +:+ "&page=" +:+ pretty page.

Definition log (st : crawl_state) (evs : list event) : crawl_state :=
  {| items := items st; seen := seen st; trace := (trace st ++ evs)%list |}.

(** The body of the [while] loop for one value of [page]. *)
Definition page_step (page : Z) (st : crawl_state) : outcome :=
  let url := page_url page in
  let st := log st [LogRequesting url; Get url] in
  match net url with
  | RequestException => Break (log st [LogRequestFailed])
  | Response status_code soup =>
      let st := log st [LogStatus status_code] in
      if negb (status_code =? 200)%Z
      then Break (log st [LogNon200 status_code])
      else
        let blocks := find_product_blocks soup in
        let st := log st [LogFound (length blocks) page] in
        let '(its, sn, found_this_page) :=
          scan_blocks max_items blocks (items st) (seen st) 0 in
        let st :=
          {| items := its; seen := sn;
             trace := (trace st ++ [LogAdded found_this_page page (length its);
                                    Sleep sleep_sec])%list |} in
        if cap_reached max_items (length its) then Break st
        else if (found_this_page =? 0)%nat then Break st
        else NextPage st
  end.

(** The [while page <= max_pages] loop.  [fuel] bounds the number of
    passes; [None] means the bound was too small. *)
Fixpoint crawl_loop (fuel : nat) (page : Z) (st : crawl_state)
    : option crawl_state :=
  if (page <=? max_pages)%Z
  then
    match fuel with
    | O => None
    | S fuel =>
        match page_step page st with
        | Break st => Some st
        | NextPage st => crawl_loop fuel (page + 1) st
        end
    end
  else Some st.

Definition start : crawl_state :=
  {| items := []; seen := ∅; trace := [] |}.

(** The run: the final state, whose [items] the function returns. *)
Definition scrape_amazon_search : option crawl_state :=
  crawl_loop (Z.to_nat max_pages) 1 start.

(** The states in which the loop tests its condition. *)
Inductive reach : Z -> crawl_state -> Prop :=
| reach_start : reach 1 start
| reach_next page st st' :
    reach page st ->
    (page <= max_pages)%Z ->
    page_step page st = NextPage st' ->
    reach (page + 1) st'.

End Crawl.

(** The URLs requested, in order. *)
Fixpoint gets (tr : list event) : list string :=
  match tr with
  | [] => []
  | Get url :: r => url :: gets r
  | _ :: r => gets r
  end.

(** The records of the page a URL serves; nothing is extracted when the
    request fails or the status is not 200. *)
Definition page_records (net : string -> fetched) (url : string) : list product :=
  match net url with
  | Response status_code soup =>
      if (status_code =? 200)%Z
      then map extract_from_block (find_product_blocks soup)
      else []
  | RequestException => []
  end.

(** Every record of the pages a run fetched, page after page, block after
    block. *)
Definition stream (net : string -> fetched) (tr : list event) : list product :=
  flat_map (page_records net) (gets tr).

(** ** Fixtures *)

Definition titled (name : string) : node :=
  sample_block name "/dp/X" "$1.00" "4.0 out of 5 stars".

Definition page_of (blocks : list node) : node :=
  Tag "[document]" ∅ [ Tag "html" ∅ [ Tag "body" ∅ blocks ] ].

Definition two_pages (url : string) : fetched :=
  if bool_decide (url = "https://www.amazon.com/s?k=rocq+books&page=1")
  then Response 200 (page_of [titled "A"; titled "B"; titled "C"])
  else if bool_decide (url = "https://www.amazon.com/s?k=rocq+books&page=2")
  then Response 200 (page_of [titled "B"; titled "D"])
  else Response 200 (page_of []).

Definition titles_of (r : option crawl_state) : option (list (option string)) :=
  (fun st => map title (items st)) <$> r.

Definition gets_of (r : option crawl_state) : option (list string) :=
  (fun st => gets (trace st)) <$> r.

(** ** What the claims about the extractor speak of *)

(** [a] is the first node below [block], in document order, that [p]
    accepts. *)
Definition first_match (p : node -> bool) (block a : node) : Prop :=
  exists pre post,
    descendants block = (pre ++ a :: post)%list /\
    Forall (fun n => p n = false) pre /\ p a = true.

(** The queries of the link and of the rating. *)
Definition anchor_with_href : node -> bool :=
  matches (Some "a") [("href", Present)].

Definition rating_icon : node -> bool :=
  matches (Some "span") [("class", Equals "a-icon-alt")].

Definition aria_labelled : node -> bool :=
  matches None [("aria-label", Present)].

(** A node whose accessible label holds the rating phrase. *)
Definition rating_label (n : node) : bool :=
  match get "aria-label" n with
  | Some label => contains rating_phrase label
  | None => false
  end.

(** The link as the specification words it: the href resolved against the
    site's origin.  This is the reference resolution of RFC 3986, section
    5.2, with the origin as base (scheme [https], authority
    [www.amazon.com], empty path, no query), dot segments removed as in
    section 5.2.4. *)
Definition is_alpha (c : ascii) : bool := in_range 65 90 c || in_range 97 122 c.

Definition scheme_char (c : ascii) : bool :=
  is_alpha c || is_ascii_digit c
  || bool_decide (c = "+"%char) || bool_decide (c = "-"%char)
  || bool_decide (c = "."%char).

Fixpoint scheme_rest (s : string) : bool :=
  match s with
  | "" => false
  | String c r =>
      if bool_decide (c = ":"%char) then true else scheme_char c && scheme_rest r
  end.

Definition has_scheme (s : string) : bool :=
  match s with
  | "" => false
  | String c r => is_alpha c && scheme_rest r
  end.

(** The text before the first character [stop] accepts, and the text from
    that character on. *)
Fixpoint span_until (stop : ascii -> bool) (s : string) : string * string :=
  match s with
  | "" => ("", "")
  | String c r =>
      if stop c then ("", s)
      else let '(before, rest) := span_until stop r in (String c before, rest)
  end.

Definition ends_path (c : ascii) : bool :=
  bool_decide (c = "?"%char) || bool_decide (c = "#"%char).

Definition ends_authority (c : ascii) : bool :=
  bool_decide (c = "/"%char) || ends_path c.

(** The path of a reference that has neither scheme nor authority, and the
    query and fragment that follow it. *)
Definition ref_path (href : string) : string := fst (span_until ends_path href).

(** The pieces of [s] between the occurrences of [sep]. *)
Fixpoint split_on (sep : ascii) (s : string) : list string :=
  match s with
  | "" => [""]
  | String c r =>
      if bool_decide (c = sep) then "" :: split_on sep r
      else
        match split_on sep r with
        | h :: t => String c h :: t
        | [] => [String c ""]
        end
  end.

Definition is_dot_segment (s : string) : bool :=
  bool_decide (s = ".") || bool_decide (s = "..").

Fixpoint concat_all (l : list string) : string :=
  match l with
  | [] => ""
  | x :: r => x +:+ concat_all r
  end.

(** Section 5.2.4 on the segments that follow a slash.  [out] is the output
    buffer, last piece first, every piece with the slash before it; a [.]
    is passed over, a [..] takes the last piece away, and either leaves a
    slash when it ends the path. *)
Fixpoint remove_dots_go (out : list string) (segs : list string) : list string :=
  match segs with
  | [] => out
  | s :: r =>
      let last := match r with [] => true | _ :: _ => false end in
      if bool_decide (s = ".")
      then remove_dots_go (if last then "/" :: out else out) r
      else if bool_decide (s = "..")
      then remove_dots_go (if last then "/" :: tail out else tail out) r
      else remove_dots_go (("/" +:+ s) :: out) r
  end.

(** The dot segments a path without leading slash begins with are dropped
    (rule A). *)
Fixpoint drop_leading_dots (segs : list string) : list string :=
  match segs with
  | [] => []
  | s :: r =>
      match r with
      | [] => segs
      | _ :: _ => if is_dot_segment s then drop_leading_dots r else segs
      end
  end.

Definition remove_dot_segments (path : string) : string :=
  match path with
  | "" => ""
  | String c q =>
      if bool_decide (c = "/"%char)
      then concat_all (rev (remove_dots_go [] (split_on "/" q)))
      else
        match drop_leading_dots (split_on "/" path) with
        | [] => ""
        | s :: r =>
            match r with
            | [] => if is_dot_segment s then "" else s
            | _ :: _ => concat_all (rev (remove_dots_go [s] r))
            end
        end
  end.

(** What follows [//]: the authority, then the path with its dot segments
    removed, then the query and the fragment. *)
Definition after_slashes (s : string) : string :=
  let '(authority, r) := span_until ends_authority s in
  let '(path, tail) := span_until ends_path r in
  authority +:+ remove_dot_segments path +:+ tail.

Definition drop_two (s : string) : string :=
  match s with
  | String _ (String _ r) => r
  | _ => ""
  end.

Definition spec_resolved_link (href : string) : string :=
  if has_scheme href
  then
    let '(scheme, rest) := span_until (fun c => bool_decide (c = ":"%char)) href in
    match rest with
    | "" => href
    | String _ hier =>
        if String.prefix "//" hier
        then scheme +:+ "://" +:+ after_slashes (drop_two hier)
        else
          let '(path, tail) := span_until ends_path hier in
          scheme +:+ ":" +:+ remove_dot_segments path +:+ tail
    end
  else if String.prefix "//" href
  then "https://" +:+ after_slashes (drop_two href)
  else
    let '(path, tail) := span_until ends_path href in
    if falsy path then origin +:+ tail
    else if String.prefix "/" path
    then origin +:+ remove_dot_segments path +:+ tail
    else origin +:+ remove_dot_segments ("/" +:+ path) +:+ tail.

(** The path of the reference has no [.] and no [..] segment. *)
Definition dot_free (href : string) : Prop :=
  Forall (fun s => is_dot_segment s = false) (split_on "/" (ref_path href)).

(** A block whose only anchor points to an absolute URL. *)
Definition absolute_href_block : node :=
  Tag "div" {[ "data-asin" := "B01" ]}
    [ Tag "h2" ∅ [ Tag "a" {[ "href" := "https://www.amazon.com/dp/B01" ]}
                     [ Text "Rocq in Action" ] ] ].

(** A block without rating icon, where a labelled element comes before the
    one that carries the rating. *)
Definition sponsored_block : node :=
  Tag "div" {[ "data-asin" := "B02" ]}
    [ Tag "a" {[ "aria-label" := "Sponsored"; "href" := "/dp/B02" ]}
        [ Text "Rocq in Action" ];
      Tag "span" {[ "aria-label" := "4.5 out of 5 stars" ]} [] ].

(** A block without rating icon whose first labelled element carries the
    rating. *)
Definition labelled_block : node :=
  Tag "div" {[ "data-asin" := "B03" ]}
    [ Tag "a" {[ "href" := "/dp/B03" ]} [ Text "Rocq in Action" ];
      Tag "span" {[ "aria-label" := "4.5 out of 5 stars" ]} [] ].

(** ** What the claims about the crawl speak of *)

(** [d] stands in [l] before every other record with its title. *)
Definition first_occurrence (d : product) (l : list product) : Prop :=
  exists pre post,
    l = (pre ++ d :: post)%list /\ forall d', d' ∈ pre -> title d' <> title d.

(** The fetch of a page fails: [requests.get] raises, or the status is not
    200. *)
Definition fetch_failed (f : fetched) : Prop :=
  match f with
  | RequestException => True
  | Response status_code _ => status_code <> 200%Z
  end.

(** The invariant of the deduplication, for the records [done] the loop has
    gone through: [seen] holds the titles of [items], these are pairwise
    different and truthy, every truthy title gone through is in [seen], and
    every item is the first record with its title. *)
Record dedup_inv (its : list product) (sn : gset string) (done : list product)
    : Prop := DedupInv {
  inv_seen : forall t, t ∈ sn <-> Some t ∈ map title its;
  inv_nodup : NoDup (map title its);
  inv_truthy : forall d, d ∈ its -> falsy_opt (title d) = false;
  inv_done : forall d t, d ∈ done -> title d = Some t -> falsy t = false -> t ∈ sn;
  inv_first : forall d, d ∈ its -> first_occurrence d done
}.

(** The invariant at the end of a run, for all the records [all] of the
    pages fetched: records are left aside only when the cap is reached. *)
Definition dedup_upto (cap : option Z) (its : list product) (all : list product)
    : Prop :=
  exists sn done rest,
    all = (done ++ rest)%list /\ dedup_inv its sn done /\
    (rest = [] \/ cap_reached cap (length its) = true).

(** Page 1 serves two records, page 2 answers with status 503. *)
Definition failing_second_page (url : string) : fetched :=
  if bool_decide (url = "https://www.amazon.com/s?k=rocq+books&page=1")
  then Response 200 (page_of [titled "A"; titled "B"])
  else if bool_decide (url = "https://www.amazon.com/s?k=rocq+books&page=2")
  then Response 503 (page_of [])
  else Response 200 (page_of [titled "C"]).


(** ** What the further properties speak of *)

(** The three strategies of [find_product_blocks]. *)
Definition primary_block : node -> bool :=
  matches (Some "div") [("data-component-type", Equals "s-search-result")].

Definition secondary_block : node -> bool :=
  matches (Some "div") [("class", Equals "a-section a-spacing-medium")].

Definition asin_block (n : node) : bool :=
  matches (Some "div") [] n && negb (falsy_opt (get "data-asin" n)).

(** One pass over records that keeps, for every truthy title, the first
    record that has it.  [sn] holds the titles met so far. *)
Fixpoint first_by_title (sn : gset string) (l : list product) : list product :=
  match l with
  | [] => []
  | d :: r =>
      match title d with
      | Some t =>
          if falsy t || bool_decide (t ∈ sn) then first_by_title sn r
          else d :: first_by_title ({[ t ]} ∪ sn) r
      | None => first_by_title sn r
      end
  end.

(** The titles met after [l]. *)
Fixpoint titles_after (sn : gset string) (l : list product) : gset string :=
  match l with
  | [] => sn
  | d :: r =>
      match title d with
      | Some t =>
          if falsy t || bool_decide (t ∈ sn) then titles_after sn r
          else titles_after ({[ t ]} ∪ sn) r
      | None => titles_after sn r
      end
  end.

(** The sleeps of a trace, and the fetches of a trace that succeed. *)
Fixpoint sleeps (tr : list event) : list Q :=
  match tr with
  | [] => []
  | Sleep sec :: r => sec :: sleeps r
  | _ :: r => sleeps r
  end.

Definition fetch_ok (net : string -> fetched) (url : string) : bool :=
  match net url with
  | Response status_code _ => (status_code =? 200)%Z
  | RequestException => false
  end.

(** A page with a nested result block, and a keyword with characters that a
    URL reserves. *)
Definition nested_page : node :=
  page_of [ Tag "div" {[ "data-component-type" := "s-search-result" ]}
              [ Tag "div" {[ "data-asin" := "B09" ]} [ Text "inner" ] ];
            Tag "div" {[ "class" := "a-section  a-spacing-medium" ]} [] ].

(** The first character of [s], if any, is not whitespace. *)
Definition starts_clean (s : string) : Prop :=
  match s with
  | "" => True
  | String c _ => isspace c = false
  end.

(** One sleep of [sleep_sec] for every fetch that succeeded. *)
Definition sleeps_as_fetched (net : string -> fetched) (sleep_sec : Q)
    (tr : list event) : Prop :=
  sleeps tr
  = replicate (length (filter (fun u => fetch_ok net u = true) (gets tr))) sleep_sec.

(** The number of points in a text. *)
Fixpoint count_points (s : string) : nat :=
  match s with
  | "" => 0
  | String c r => (if bool_decide (c = "."%char) then 1 else 0) + count_points r
  end.

(** * Properties *)

(** ** The definitions on the fixtures *)

Example parse_price_ex1 : parse_price (Some "$1,234.56") = Some (lit 1234.56%Q).
Proof. vm_compute. reflexivity. Qed.

Example parse_price_ex2 : parse_price (Some "-$5.00") = Some (lit 5%Q).
Proof. vm_compute. reflexivity. Qed.

Example parse_price_ex3 : parse_price (Some "1.2.3") = None.
Proof. vm_compute. reflexivity. Qed.

Example parse_rating_ex1 : parse_rating (Some "4.5 out of 5 stars") = Some (lit 4.5%Q).
Proof. vm_compute. reflexivity. Qed.

Example parse_rating_ex2 : parse_rating (Some "no rating") = None.
Proof. vm_compute. reflexivity. Qed.

Example float_ex1 : float "1_000.5e-1" = Some (lit 100.05%Q).
Proof. vm_compute. reflexivity. Qed.

Example float_ex2 : float "-Infinity" = Some (FInf true).
Proof. vm_compute. reflexivity. Qed.

Example split_ex1 : split "  a  bc d " = ["a"; "bc"; "d"].
Proof. vm_compute. reflexivity. Qed.

Example replace_ex1 : replace "USD" "" "USD 12 USUSDD" = " 12 USD".
Proof. vm_compute. reflexivity. Qed.

Example extract_sample :
  extract_from_block (sample_block " Rocq in Action " "/dp/B01" "$39.99" "4.5 out of 5 stars")
  = {| title := Some "Rocq in Action";
       link := Some "https://www.amazon.com/dp/B01";
       price_raw := Some "$39.99";
       price := Some (lit 39.99%Q);
       rating_raw := Some "4.5 out of 5 stars";
       rating := Some (lit 4.5%Q);
       author := None |}.
Proof. vm_compute. reflexivity. Qed.

Example two_pages_run :
  titles_of (scrape_amazon_search " rocq books " 2 0%Q None two_pages)
  = Some [Some "A"; Some "B"; Some "C"; Some "D"].
Proof. vm_compute. reflexivity. Qed.

Example two_pages_capped :
  titles_of (scrape_amazon_search "rocq books" 5 1%Q (Some 2%Z) two_pages)
  = Some [Some "A"; Some "B"]
  /\ gets_of (scrape_amazon_search "rocq books" 5 1%Q (Some 2%Z) two_pages)
     = Some ["https://www.amazon.com/s?k=rocq+books&page=1"].
Proof. vm_compute. split; reflexivity. Qed.

Example empty_first_page :
  titles_of (scrape_amazon_search "nothing" 3 1%Q None two_pages) = Some []
  /\ gets_of (scrape_amazon_search "nothing" 3 1%Q None two_pages)
     = Some ["https://www.amazon.com/s?k=nothing&page=1"].
Proof. vm_compute. split; reflexivity. Qed.

(** ** Strings *)

Section StringFacts.

Lemma all_chars_app p s1 s2 :
  all_chars p s1 -> all_chars p s2 -> all_chars p (s1 +:+ s2).
Proof. induction s1 as [|c r IH]; simpl; [tauto|]. intros [? ?] ?. auto. Qed.

Lemma all_chars_weaken (p q : ascii -> bool) s :
  (forall c, p c = true -> q c = true) -> all_chars p s -> all_chars q s.
Proof. intros Hpq. induction s as [|c r IH]; simpl; [tauto|]. intros [? ?]. auto. Qed.

Lemma prefix_first_chars p old s :
  all_chars p old -> String.prefix old s = true ->
  first_chars p (String.length old) s.
Proof.
  revert s. induction old as [|o os IH]; intros s Hall Hpre; simpl; [exact I|].
  destruct s as [|c r]; simpl in *; [discriminate|].
  destruct Hall as [Ho Hos].
  destruct (ascii_dec o c) as [->|]; [|discriminate].
  split; auto.
Qed.

Lemma app_empty_r s : s +:+ "" = s.
Proof.
  induction s as [|c r IH]; [reflexivity|].
  change (String c (r +:+ "") = String c r). by rewrite IH.
Qed.

Lemma falsy_true s : falsy s = true <-> s = "".
Proof. destruct s; simpl; split; congruence. Qed.

Lemma falsy_false s : falsy s = false <-> s <> "".
Proof. destruct s; simpl; split; congruence. Qed.

(** *** [split] after [strip] *)

Lemma split_lstrip s : split (lstrip s) = split s.
Proof.
  unfold split. induction s as [|c r IH]; simpl; [reflexivity|].
  destruct (isspace c) eqn:Hc; simpl; [exact IH|].
  rewrite Hc. reflexivity.
Qed.

Lemma split_from_rstrip s : forall tok, split_from tok (rstrip s) = split_from tok s.
Proof.
  induction s as [|c r IH]; intros tok; simpl; [reflexivity|].
  destruct (falsy (rstrip r) && isspace c) eqn:Hstop.
  - apply andb_true_iff in Hstop as [Hr Hc]. apply falsy_true in Hr.
    simpl. rewrite Hc. rewrite <- (IH ""), Hr. simpl.
    destruct (falsy tok); reflexivity.
  - simpl. destruct (isspace c); [destruct (falsy tok)|]; rewrite IH; reflexivity.
Qed.

Lemma split_strip s : split (strip s) = split s.
Proof. unfold strip, split. rewrite split_from_rstrip. apply split_lstrip. Qed.

Lemma split_from_tokens s : forall tok,
  all_chars (fun c => negb (isspace c)) tok ->
  Forall token_like (split_from tok s).
Proof.
  induction s as [|c r IH]; intros tok Htok; simpl.
  - destruct (falsy tok) eqn:Hf; constructor; [|constructor].
    split; [by apply falsy_false|done].
  - destruct (isspace c) eqn:Hc.
    + destruct (falsy tok) eqn:Hf; [by apply IH|].
      constructor; [split; [by apply falsy_false|done]|by apply IH].
    + apply IH. apply all_chars_app; [done|]. simpl. by rewrite Hc.
Qed.

Lemma split_tokens s : Forall token_like (split s).
Proof. by apply split_from_tokens. Qed.

End StringFacts.

(** ** [parse_price] *)

Section PriceFacts.

Lemma keep_price_chars_filter s :
  list_ascii_of_string (keep_price_chars s)
  = List.filter price_char (list_ascii_of_string s).
Proof.
  induction s as [|c r IH]; simpl; [reflexivity|].
  destruct (price_char c); simpl; by rewrite IH.
Qed.

Lemma keep_price_chars_all s : all_chars price_char (keep_price_chars s).
Proof.
  induction s as [|c r IH]; simpl; [exact I|].
  destruct (price_char c) eqn:Hc; simpl; auto.
Qed.

(** Deleting occurrences of a text without digits and points does not
    change what the loop keeps. *)
Lemma keep_replace_go o os s : forall k,
  all_chars not_price_char (String o os) ->
  first_chars not_price_char k s ->
  keep_price_chars (replace_go (String o os) "" k s) = keep_price_chars s.
Proof.
  induction s as [|c r IH]; intros k Hold Hk; [reflexivity|].
  destruct k as [|k].
  - cbn [replace_go].
    destruct (String.prefix (String o os) (String c r)) eqn:Hpre.
    + pose proof (prefix_first_chars _ _ _ Hold Hpre) as Hfirst.
      cbn [String.length first_chars] in Hfirst. destruct Hfirst as [Hc Hr].
      replace (String.length (String o os) - 1) with (String.length os)
        by (cbn [String.length]; lia).
      change ("" +:+ ?x) with x.
      rewrite IH by done.
      unfold not_price_char in Hc. apply negb_true_iff in Hc.
      cbn [keep_price_chars]. by rewrite Hc.
    + cbn [keep_price_chars]. rewrite IH by done. reflexivity.
  - cbn [replace_go first_chars] in *. destruct Hk as [Hc Hr].
    rewrite IH by done.
    unfold not_price_char in Hc. apply negb_true_iff in Hc.
    cbn [keep_price_chars]. by rewrite Hc.
Qed.

Lemma keep_replace o os s :
  all_chars not_price_char (String o os) ->
  keep_price_chars (replace (String o os) "" s) = keep_price_chars s.
Proof. intros Hold. unfold replace. simpl falsy. cbv iota. by apply keep_replace_go. Qed.

Lemma keep_cleaned text :
  keep_price_chars (replace "US$" "" (replace "USD" "" (replace "," "" text)))
  = keep_price_chars text.
Proof.
  rewrite !keep_replace; [reflexivity|..]; vm_compute; tauto.
Qed.

Lemma parse_price_unfold text :
  parse_price (Some text)
  = if falsy (keep_price_chars text) then None else float (keep_price_chars text).
Proof.
  unfold parse_price. rewrite keep_cleaned.
  destruct text; reflexivity.
Qed.

End PriceFacts.

(** ** [float] on the text [parse_price] keeps *)

Section FloatFacts.

(** Facts about one character are settled by running through the 256
    code points. *)
Ltac each_char c :=
  destruct c as [[] [] [] [] [] [] [] []]; vm_compute; try congruence; auto.

Lemma price_char_not_space c : price_char c = true -> float_space c = false.
Proof. each_char c. Qed.

Lemma price_char_cases c :
  price_char c = true ->
  c <> "_"%char /\ c <> "-"%char /\ c <> "+"%char /\ c <> "e"%char /\ c <> "E"%char.
Proof. each_char c; repeat split; congruence. Qed.

Lemma digit_is_price_char c : is_ascii_digit c = true -> price_char c = true.
Proof. each_char c. Qed.

Lemma drop_underscores_id s : forall prev,
  all_chars price_char s -> prev <> Some "_"%char ->
  drop_underscores prev s = Some s.
Proof.
  induction s as [|c r IH]; intros prev Hall Hprev; simpl.
  - by rewrite bool_decide_eq_false_2.
  - destruct Hall as [Hc Hr]. apply price_char_cases in Hc as (Hu & _).
    rewrite (bool_decide_eq_false_2 (c = "_"%char)) by done.
    rewrite (bool_decide_eq_false_2 (prev = _)) by done. simpl.
    rewrite IH; [done|done|congruence].
Qed.

Lemma lstrip_f_id s : all_chars price_char s -> lstrip_f s = s.
Proof.
  destruct s as [|c r]; simpl; [done|]. intros [Hc _].
  by rewrite price_char_not_space.
Qed.

Lemma rstrip_f_id s : all_chars price_char s -> rstrip_f s = s.
Proof.
  induction s as [|c r IH]; simpl; [done|]. intros [Hc Hr].
  rewrite IH by done. rewrite price_char_not_space by done.
  by rewrite andb_false_r.
Qed.

Lemma take_sign_none s : all_chars price_char s -> take_sign s = (false, s).
Proof.
  destruct s as [|c r]; simpl; [done|]. intros [Hc _].
  apply price_char_cases in Hc as (_ & Hm & Hp & _).
  by rewrite !bool_decide_eq_false_2.
Qed.

Lemma span_digits_spec s ds rest :
  span_digits s = (ds, rest) ->
  s = ds +:+ rest /\ all_chars is_ascii_digit ds.
Proof.
  revert ds rest. induction s as [|c r IH]; intros ds rest; simpl.
  - intros [= <- <-]. done.
  - destruct (is_ascii_digit c) eqn:Hc.
    + destruct (span_digits r) as [ds' rest'] eqn:Hr. intros [= <- <-].
      destruct (IH _ _ eq_refl) as [-> Hds]. simpl. done.
    + intros [= <- <-]. done.
Qed.

Lemma all_chars_app_inv p s1 s2 :
  all_chars p (s1 +:+ s2) -> all_chars p s1 /\ all_chars p s2.
Proof. induction s1 as [|c r IH]; simpl; [tauto|]. intros [? ?]. tauto. Qed.

Lemma parse_special_price neg s :
  all_chars price_char s -> parse_special neg s = None.
Proof.
  intros Hall. unfold parse_special.
  destruct s as [|c r]; [reflexivity|]. destruct Hall as [Hc _].
  assert (lower_char c <> "i"%char /\ lower_char c <> "n"%char) as [Hi Hn].
  { revert Hc. clear. each_char c; split; congruence. }
  rewrite !bool_decide_eq_false_2; [done|simpl; congruence..].
Qed.

Lemma decimal_value_nonneg ip fp e : (0 <= decimal_value ip fp e)%Q.
Proof.
  unfold decimal_value. rewrite Qred_correct.
  apply Qmult_le_0_compat.
  - unfold Qle. simpl. lia.
  - apply Qpower_0_le. discriminate.
Qed.

(** What [parse_decimal] reads in a text of digits and points: digits, or
    digits, a point and digits. *)
Lemma parse_decimal_price s q :
  all_chars price_char s -> parse_decimal s = Some q ->
  exists ip fp,
    all_chars is_ascii_digit ip /\ all_chars is_ascii_digit fp /\
    ((s = ip /\ fp = "") \/ s = ip +:+ "." +:+ fp) /\
    q = decimal_value ip fp 0.
Proof.
  intros Hall. unfold parse_decimal.
  destruct (span_digits s) as [ip r1] eqn:Hip.
  apply span_digits_spec in Hip as [-> Hipd].
  apply all_chars_app_inv in Hall as [_ Hr1].
  destruct r1 as [|c r].
  - destruct (falsy ip && falsy ""); [done|]. intros [= <-].
    exists ip, "". repeat split; try done. left. split; [|done].
    by rewrite app_empty_r.
  - destruct Hr1 as [Hc Hr]. case_bool_decide as Hdot.
    + subst c. destruct (span_digits r) as [fp r2] eqn:Hfp.
      apply span_digits_spec in Hfp as [-> Hfpd].
      apply all_chars_app_inv in Hr as [_ Hr2].
      destruct (falsy ip && falsy fp); [done|].
      destruct r2 as [|c2 r3].
      * intros [= <-]. exists ip, fp. repeat split; try done. right.
        by rewrite app_empty_r.
      * destruct Hr2 as [Hc2 _].
        apply price_char_cases in Hc2 as (_ & _ & _ & He & HE).
        by rewrite !bool_decide_eq_false_2.
    + destruct (falsy ip && falsy ""); [done|].
      apply price_char_cases in Hc as (_ & _ & _ & He & HE).
      by rewrite !bool_decide_eq_false_2.
Qed.

Lemma float_price_chars s v :
  all_chars price_char s -> float s = Some v ->
  exists ip fp,
    all_chars is_ascii_digit ip /\ all_chars is_ascii_digit fp /\
    ((s = ip /\ fp = "") \/ s = ip +:+ "." +:+ fp) /\
    v = FNum false (decimal_value ip fp 0).
Proof.
  intros Hall. unfold float.
  rewrite drop_underscores_id by done.
  rewrite lstrip_f_id, rstrip_f_id, take_sign_none by done.
  destruct (parse_decimal s) as [q|] eqn:Hq.
  - intros [= <-].
    destruct (parse_decimal_price _ _ Hall Hq) as (ip & fp & ? & ? & ? & ->).
    by exists ip, fp.
  - by rewrite parse_special_price.
Qed.

End FloatFacts.

(** ** The text normalizers *)

Lemma kept_text_filter text :
  string_of_list_ascii (List.filter price_char (list_ascii_of_string text))
  = keep_price_chars text.
Proof. by rewrite <- keep_price_chars_filter, string_of_list_ascii_of_string. Qed.

(** C5.  [parse_price] keeps exactly the digits and the points of its text,
    in their order, and parses what is kept as a decimal number: the result
    is [float] of the kept text, and absent when nothing is kept or [float]
    rejects it; a number it returns is the value of the kept digits, with the
    point where the text has it.  In particular ["$1,234.56"] gives 1234.56,
    and [""] and ["USD"] give nothing. *)
Theorem parse_price_keeps_digits_and_points :
  (forall text,
     let s := string_of_list_ascii
                (List.filter price_char (list_ascii_of_string text)) in
     parse_price (Some text) = if falsy s then None else float s)
  /\ (forall text v,
        parse_price (Some text) = Some v ->
        exists ip fp,
          all_chars is_ascii_digit ip /\ all_chars is_ascii_digit fp /\
          ((keep_price_chars text = ip /\ fp = "")
           \/ keep_price_chars text = ip +:+ "." +:+ fp) /\
          v = FNum false (decimal_value ip fp 0))
  /\ parse_price None = None
  /\ parse_price (Some "$1,234.56") = Some (lit 1234.56%Q)
  /\ parse_price (Some "") = None
  /\ parse_price (Some "USD") = None.
Proof.
  split; [|split; [|by vm_compute]].
  - intros text s. subst s. rewrite kept_text_filter. apply parse_price_unfold.
  - intros text v. rewrite parse_price_unfold.
    destruct (falsy (keep_price_chars text)); [done|].
    apply float_price_chars, keep_price_chars_all.
Qed.

Lemma parse_price_keeps_digits_and_points_witness :
  exists ip fp,
    all_chars is_ascii_digit ip /\ all_chars is_ascii_digit fp /\
    ((keep_price_chars "US$ 12.50" = ip /\ fp = "")
     \/ keep_price_chars "US$ 12.50" = ip +:+ "." +:+ fp) /\
    lit 12.5%Q = FNum false (decimal_value ip fp 0).
Proof.
  apply (proj1 (proj2 parse_price_keeps_digits_and_points) "US$ 12.50").
  vm_compute. reflexivity.
Defined.

Lemma first_float_some parts v :
  first_float parts = Some v ->
  exists pre tok post,
    parts = (pre ++ tok :: post)%list /\
    Forall (fun t => float t = None) pre /\ float tok = Some v.
Proof.
  induction parts as [|t rest IH]; simpl; [done|].
  destruct (float t) as [w|] eqn:Ht.
  - intros [= <-]. by exists [], t, rest.
  - intros Hrest. destruct (IH Hrest) as (pre & tok & post & -> & Hpre & Htok).
    exists (t :: pre), tok, post. repeat split; [|done]. by constructor.
Qed.

Lemma first_float_none parts :
  first_float parts = None <-> Forall (fun t => float t = None) parts.
Proof.
  induction parts as [|t rest IH]; simpl; [by split|].
  destruct (float t) as [w|] eqn:Ht.
  - split; [done|]. intros H. inversion H; congruence.
  - rewrite IH. split; [by constructor|]. intros H. by inversion H.
Qed.

(** C6.  [parse_rating] splits its text on whitespace (the tokens are the
    non-empty runs without whitespace) and returns [float] of the first token
    [float] accepts, and nothing when it accepts none.  In particular
    ["4.5 out of 5 stars"] gives 4.5 and ["no rating"] gives nothing. *)
Theorem parse_rating_first_numeric_token :
  (forall text, parse_rating (Some text) = first_float (split text))
  /\ (forall text, Forall token_like (split text))
  /\ (forall parts v,
        first_float parts = Some v ->
        exists pre tok post,
          parts = (pre ++ tok :: post)%list /\
          Forall (fun t => float t = None) pre /\ float tok = Some v)
  /\ (forall parts,
        first_float parts = None <-> Forall (fun t => float t = None) parts)
  /\ parse_rating None = None
  /\ parse_rating (Some "4.5 out of 5 stars") = Some (lit 4.5%Q)
  /\ parse_rating (Some "no rating") = None.
Proof.
  repeat split; try (vm_compute; reflexivity).
  - intros text. unfold parse_rating. rewrite split_strip. by destruct text.
  - apply split_tokens.
  - apply first_float_some.
  - by apply first_float_none.
  - by apply first_float_none.
Qed.

Lemma parse_rating_first_numeric_token_witness :
  exists pre tok post,
    ["rated"; "4.5"; "of"; "5"] = (pre ++ tok :: post)%list /\
    Forall (fun t => float t = None) pre /\ float tok = Some (lit 4.5%Q).
Proof.
  apply (proj1 (proj2 (proj2 parse_rating_first_numeric_token))).
  vm_compute. reflexivity.
Defined.

(** C9.  A number [parse_price] returns is never negative: its sign bit is
    clear, because a minus sign is dropped with every other character that is
    neither a digit nor a point.  So ["-$5.00"] gives 5.0. *)
Theorem parse_price_never_negative :
  (forall text v,
     parse_price text = Some v ->
     ge_zero v = true /\ exists mag, v = FNum false mag /\ (0 <= mag)%Q)
  /\ keep_price_chars "-$5.00" = "5.00"
  /\ parse_price (Some "-$5.00") = Some (lit 5%Q).
Proof.
  split; [|by vm_compute].
  intros [text|] v; [|done].
  intros Hv.
  rewrite parse_price_unfold in Hv.
  destruct (falsy (keep_price_chars text)); [done|].
  destruct (float_price_chars _ _ (keep_price_chars_all text) Hv)
    as (ip & fp & _ & _ & _ & ->).
  split; [reflexivity|].
  eexists. split; [reflexivity|]. apply decimal_value_nonneg.
Qed.

Lemma parse_price_never_negative_witness :
  ge_zero (lit 5%Q) = true /\ exists mag, lit 5%Q = FNum false mag /\ (0 <= mag)%Q.
Proof.
  apply (proj1 parse_price_never_negative (Some "-$5.00")).
  vm_compute. reflexivity.
Defined.

(** ** The field extractor *)

Lemma find_first (p : node -> bool) (l : list node) a :
  List.find p l = Some a <->
  exists pre post,
    l = (pre ++ a :: post)%list /\ Forall (fun n => p n = false) pre /\ p a = true.
Proof.
  induction l as [|x l IH]; simpl.
  - split; [done|]. intros (pre & post & Heq & _). by destruct pre.
  - destruct (p x) eqn:Hx.
    + split.
      * intros [= <-]. by exists [], l.
      * intros (pre & post & Heq & Hpre & Ha).
        destruct pre as [|y pre]; simpl in Heq; injection Heq as -> Hl; [done|].
        inversion Hpre; congruence.
    + rewrite IH. split.
      * intros (pre & post & -> & Hpre & Ha).
        exists (x :: pre), post. repeat split; [|done]. by constructor.
      * intros (pre & post & Heq & Hpre & Ha).
        destruct pre as [|y pre]; simpl in Heq; injection Heq as -> Hl; [congruence|].
        exists pre, post. repeat split; [done| |done]. by inversion Hpre.
Qed.

Lemma find_by_first p block a :
  find_by p block = Some a <-> first_match p block a.
Proof. apply find_first. Qed.

Lemma find_by_none p block :
  find_by p block = None <-> Forall (fun n => p n = false) (descendants block).
Proof.
  unfold find_by. induction (descendants block) as [|x l IH]; simpl; [by split|].
  destruct (p x) eqn:Hx.
  - split; [done|]. intros H. inversion H; congruence.
  - rewrite IH. split; [by constructor|]. intros H. by inversion H.
Qed.

(** The link is the origin followed by the href of the first anchor that
    has one, whatever the href. *)
Lemma extract_link_concat block a href :
  first_match anchor_with_href block a ->
  get "href" a = Some href ->
  extract_link block = Some (origin +:+ href).
Proof.
  intros Hfirst Hhref. apply find_by_first in Hfirst.
  unfold extract_link, find. unfold anchor_with_href in Hfirst.
  by rewrite Hfirst, Hhref.
Qed.

Lemma str_app_cons c a b : String c a +:+ b = String c (a +:+ b).
Proof. reflexivity. Qed.

Lemma str_app_nil_l b : "" +:+ b = b.
Proof. reflexivity. Qed.

Lemma span_until_app stop s :
  fst (span_until stop s) +:+ snd (span_until stop s) = s.
Proof.
  induction s as [|c r IH]; simpl; [done|].
  destruct (stop c); [done|].
  destruct (span_until stop r) as [before rest]. simpl in *.
  by rewrite str_app_cons, IH.
Qed.

Lemma span_until_cons stop c r :
  stop c = false ->
  span_until stop (String c r)
  = (String c (fst (span_until stop r)), snd (span_until stop r)).
Proof. intros Hc. simpl. rewrite Hc. by destruct (span_until stop r). Qed.

Lemma not_dot_segment s :
  is_dot_segment s = false ->
  bool_decide (s = ".") = false /\ bool_decide (s = "..") = false.
Proof. unfold is_dot_segment. by intros [? ?]%orb_false_iff. Qed.

(** Without dot segments nothing is taken away. *)
Lemma remove_dots_go_id segs : forall out,
  Forall (fun s => is_dot_segment s = false) segs ->
  remove_dots_go out segs
  = (rev (map (fun s => "/" +:+ s) segs) ++ out)%list.
Proof.
  induction segs as [|s r IH]; intros out Hall; [done|].
  inversion Hall as [|? ? Hs Hr]; subst.
  destruct (not_dot_segment _ Hs) as [H1 H2].
  cbn [remove_dots_go]. rewrite H1, H2. rewrite IH by done.
  simpl. by rewrite <- app_assoc.
Qed.

Lemma concat_slash_split q :
  concat_all (map (fun s => "/" +:+ s) (split_on "/" q)) = "/" +:+ q.
Proof.
  induction q as [|c r IH]; [reflexivity|].
  cbn [split_on]. case_bool_decide as Hc.
  - subst c. cbn [map concat_all]. rewrite IH. reflexivity.
  - destruct (split_on "/" r) as [|h t]; [discriminate IH|].
    cbn [map concat_all] in *.
    change (String "/" (h +:+ concat_all (map (fun s => "/" +:+ s) t))
            = String "/" r) in IH.
    change (String "/" (String c (h +:+ concat_all (map (fun s => "/" +:+ s) t)))
            = String "/" (String c r)).
    injection IH as IH. by rewrite IH.
Qed.

Lemma remove_dot_segments_id q :
  Forall (fun s => is_dot_segment s = false) (split_on "/" q) ->
  remove_dot_segments (String "/" q) = String "/" q.
Proof.
  intros Hall. unfold remove_dot_segments.
  rewrite bool_decide_eq_true_2 by done.
  rewrite remove_dots_go_id by done.
  rewrite app_nil_r, rev_involutive. apply concat_slash_split.
Qed.

(** A root-relative reference without dot segments resolves to the origin
    followed by the reference. *)
Lemma root_relative_resolved href :
  String.prefix "/" href = true -> String.prefix "//" href = false ->
  dot_free href ->
  spec_resolved_link href = origin +:+ href.
Proof.
  intros H1 H2 Hfree. unfold spec_resolved_link. rewrite H2.
  destruct href as [|c r]; [done|].
  assert (c = "/"%char) as ->.
  { cbn [String.prefix] in H1. by destruct (ascii_dec "/"%char c). }
  change (has_scheme (String "/" r)) with false. cbv iota.
  unfold dot_free, ref_path in Hfree.
  rewrite span_until_cons in * by done. cbn [fst] in Hfree.
  cbn [split_on] in Hfree. rewrite bool_decide_eq_true_2 in Hfree by done.
  inversion Hfree as [|? ? _ Hsegs]; subst.
  cbv beta iota zeta. cbn [falsy].
  assert (String.prefix "/" (String "/" (fst (span_until ends_path r))) = true)
    as ->.
  { cbn [String.prefix]. destruct (ascii_dec "/"%char "/"%char); [|done].
    by destruct (fst (span_until ends_path r)). }
  rewrite remove_dot_segments_id by done.
  rewrite str_app_cons, span_until_app. reflexivity.
Qed.

(** What the rating fallback does: it looks at the first labelled element
    only. *)
Lemma extract_rating_fallback block :
  find_by rating_icon block = None ->
  extract_rating_raw block
  = match find_by aria_labelled block with
    | Some aria =>
        match get "aria-label" aria with
        | Some label => if contains rating_phrase label then Some label else None
        | None => None
        end
    | None => None
    end.
Proof.
  intros Hicon. unfold extract_rating_raw, find.
  unfold rating_icon in Hicon. by rewrite Hicon.
Qed.

(** C8, as amended.  The link is the site's origin followed by the href of
    the first anchor that has one; when that href is root-relative (it starts
    with one slash) and its path has no [.] and no [..] segment, this is the
    href resolved against the origin. *)
Theorem link_of_root_relative_href block a href :
  first_match anchor_with_href block a ->
  get "href" a = Some href ->
  link (extract_from_block block) = Some (origin +:+ href)
  /\ (String.prefix "/" href = true -> String.prefix "//" href = false ->
      dot_free href ->
      link (extract_from_block block) = Some (spec_resolved_link href)).
Proof.
  intros Hfirst Hhref.
  pose proof (extract_link_concat _ _ _ Hfirst Hhref) as Hlink.
  split; [exact Hlink|].
  intros H1 H2 Hfree. simpl. rewrite Hlink. by rewrite root_relative_resolved.
Qed.

Lemma link_of_root_relative_href_witness :
  link (extract_from_block labelled_block) = Some "https://www.amazon.com/dp/B03"
  /\ link (extract_from_block labelled_block) = Some (spec_resolved_link "/dp/B03").
Proof.
  assert (first_match anchor_with_href labelled_block
            (Tag "a" {[ "href" := "/dp/B03" ]} [ Text "Rocq in Action" ])) as Hfirst.
  { exists [], [Text "Rocq in Action";
                Tag "span" {[ "aria-label" := "4.5 out of 5 stars" ]} []].
    repeat split; [constructor]. }
  destruct (link_of_root_relative_href labelled_block _ "/dp/B03" Hfirst eq_refl)
    as [H1 H2].
  split; [exact H1|]. apply H2; [reflexivity|reflexivity|].
  unfold dot_free. vm_compute. by repeat constructor.
Defined.

(** With a dot segment the two part: the code keeps the segment, resolution
    removes it. *)
Example link_keeps_dot_segments :
  link (extract_from_block
          (Tag "div" ∅ [ Tag "a" {[ "href" := "/a/../b" ]} [ Text "b" ] ]))
  = Some "https://www.amazon.com/a/../b"
  /\ spec_resolved_link "/a/../b" = "https://www.amazon.com/b"
  /\ ~ dot_free "/a/../b".
Proof.
  split_and!; [by vm_compute|by vm_compute|].
  unfold dot_free. vm_compute. intros Hall.
  inversion Hall as [|? ? _ H1]. inversion H1 as [|? ? _ H2].
  inversion H2 as [|? ? Hdot _]. discriminate Hdot.
Qed.

(** C8 as stated fails: an href that is already absolute is not resolved, the
    origin is put in front of it all the same. *)
Lemma link_of_absolute_href_not_resolved :
  first_match anchor_with_href absolute_href_block
    (Tag "a" {[ "href" := "https://www.amazon.com/dp/B01" ]} [ Text "Rocq in Action" ])
  /\ link (extract_from_block absolute_href_block)
     = Some "https://www.amazon.comhttps://www.amazon.com/dp/B01"
  /\ link (extract_from_block absolute_href_block)
     <> Some (spec_resolved_link "https://www.amazon.com/dp/B01").
Proof.
  split; [|split].
  - exists [Tag "h2" ∅ [ Tag "a" {[ "href" := "https://www.amazon.com/dp/B01" ]}
                            [ Text "Rocq in Action" ] ]],
           [Text "Rocq in Action"].
    repeat split. by repeat constructor.
  - by vm_compute.
  - vm_compute. discriminate.
Qed.

(** C7.  In [sponsored_block] there is no rating icon and an element is
    labelled "4.5 out of 5 stars", yet the rating text is absent: the
    fallback reads the label of the first labelled element, "Sponsored", and
    looks no further. *)
Theorem rating_label_after_other_label_missed :
  find_by rating_icon sponsored_block = None
  /\ Exists (fun n => rating_label n = true) (descendants sponsored_block)
  /\ rating_raw (extract_from_block sponsored_block) = None
  /\ rating (extract_from_block sponsored_block) = None
  /\ rating_raw (extract_from_block labelled_block) = Some "4.5 out of 5 stars".
Proof.
  split; [by vm_compute|]. split; [|by vm_compute].
  apply Exists_cons_tl, Exists_cons_tl, Exists_cons_hd. by vm_compute.
Qed.

(** ** The crawl loop *)

Lemma gets_app tr1 tr2 : gets (tr1 ++ tr2) = (gets tr1 ++ gets tr2)%list.
Proof.
  induction tr1 as [|e tr1 IH]; [reflexivity|].
  destruct e; simpl; by rewrite IH.
Qed.

Lemma stream_app net tr1 tr2 :
  stream net (tr1 ++ tr2) = (stream net tr1 ++ stream net tr2)%list.
Proof. unfold stream. by rewrite gets_app, flat_map_app. Qed.

(** *** The deduplication invariant *)

Lemma first_occurrence_app d l more :
  first_occurrence d l -> first_occurrence d (l ++ more).
Proof.
  intros (pre & post & -> & Hpre). exists pre, (post ++ more)%list.
  split; [|done]. by rewrite <- app_assoc.
Qed.

Lemma dedup_inv_start : dedup_inv [] ∅ [].
Proof.
  split; simpl.
  - intros t. split; [set_solver|]. by intros ?%elem_of_nil.
  - constructor.
  - by intros d ?%elem_of_nil.
  - by intros d t ?%elem_of_nil.
  - by intros d ?%elem_of_nil.
Qed.

(** A record the loop passes over: its title is falsy or already seen. *)
Lemma dedup_inv_skip its sn done d :
  dedup_inv its sn done ->
  (forall t, title d = Some t -> falsy t = false -> t ∈ sn) ->
  dedup_inv its sn (done ++ [d]).
Proof.
  intros [Hseen Hnodup Htruthy Hdone Hfirst] Hd. split; try done.
  - intros d' t [Hin|Hin]%elem_of_app; [by eapply Hdone|].
    apply list_elem_of_singleton in Hin as ->. apply Hd.
  - intros d' Hin. by apply first_occurrence_app, Hfirst.
Qed.

(** A record the loop appends: its title is truthy and not seen yet. *)
Lemma dedup_inv_add its sn done d t :
  dedup_inv its sn done ->
  title d = Some t -> falsy t = false -> t ∉ sn ->
  dedup_inv (its ++ [d]) ({[ t ]} ∪ sn) (done ++ [d]).
Proof.
  intros [Hseen Hnodup Htruthy Hdone Hfirst] Ht Hf Hnew. split.
  - intros t'. rewrite map_app, elem_of_app, elem_of_union, <- Hseen. simpl.
    rewrite Ht, list_elem_of_singleton, elem_of_singleton.
    split; intros [H|H]; [right; congruence|by left|by right|left; congruence].
  - rewrite map_app. simpl. rewrite Ht. apply NoDup_app. split; [done|].
    split; [|apply NoDup_singleton].
    intros x Hx ->%list_elem_of_singleton. by apply Hnew, Hseen.
  - intros d' [Hin|Hin]%elem_of_app; [by apply Htruthy|].
    apply list_elem_of_singleton in Hin as ->. by rewrite Ht.
  - intros d' t' [Hin|Hin]%elem_of_app Ht' Hf'.
    + apply elem_of_union. right. by eapply Hdone.
    + apply list_elem_of_singleton in Hin as ->.
      apply elem_of_union. left. apply elem_of_singleton. congruence.
  - intros d' [Hin|Hin]%elem_of_app.
    + by apply first_occurrence_app, Hfirst.
    + apply list_elem_of_singleton in Hin as ->.
      exists done, []. split; [done|].
      intros d' Hd' Heq. rewrite Ht in Heq. apply Hnew. by eapply Hdone.
Qed.

(** The [for] loop keeps the invariant for the records it has gone through;
    it leaves records of the page aside only when the cap is reached. *)
Lemma scan_blocks_inv cap blocks : forall its sn found done its' sn' found',
  dedup_inv its sn done ->
  scan_blocks cap blocks its sn found = (its', sn', found') ->
  exists processed rest new,
    map extract_from_block blocks = (processed ++ rest)%list /\
    dedup_inv its' sn' (done ++ processed) /\
    (rest = [] \/ cap_reached cap (length its') = true) /\
    its' = (its ++ new)%list /\ found' = found + length new.
Proof.
  induction blocks as [|b blocks IH]; intros its sn found done its' sn' found' Hinv;
    cbn [scan_blocks map].
  - intros [= <- <- <-]. exists [], [], []. rewrite !app_nil_r.
    split_and!; auto.
  - set (data := extract_from_block b).
    assert (forall its1 sn1 found1,
      dedup_inv its1 sn1 (done ++ [data]) ->
      scan_blocks cap blocks its1 sn1 found1 = (its', sn', found') ->
      exists processed rest new,
        data :: map extract_from_block blocks = (processed ++ rest)%list /\
        dedup_inv its' sn' (done ++ processed) /\
        (rest = [] \/ cap_reached cap (length its') = true) /\
        its' = (its1 ++ new)%list /\ found' = found1 + length new) as Hnext.
    { intros its1 sn1 found1 Hinv1 Hscan.
      destruct (IH _ _ _ _ _ _ _ Hinv1 Hscan)
        as (processed & rest & new & Hmap & Hinv' & Hrest & Hits & Hfound).
      exists (data :: processed), rest, new. rewrite <- app_assoc in Hinv'.
      split_and!; try done. simpl. by rewrite Hmap. }
    destruct (falsy_opt (title data)) eqn:Hfalsy.
    { intros Hscan. apply (Hnext its sn found); [|done].
      apply dedup_inv_skip; [done|]. intros t Ht Hf.
      rewrite Ht in Hfalsy. simpl in Hfalsy. congruence. }
    destruct (title data) as [t|] eqn:Ht; [|done]. simpl in Hfalsy.
    case_bool_decide as Hseen.
    { intros Hscan. apply (Hnext its sn found); [|done].
      apply dedup_inv_skip; [done|]. intros t' Ht' _. congruence. }
    pose proof (dedup_inv_add _ _ _ _ _ Hinv Ht Hfalsy Hseen) as Hadd.
    destruct (cap_reached cap (length (its ++ [data]))) eqn:Hcap.
    + intros [= <- <- <-].
      exists [data], (map extract_from_block blocks), [data].
      split_and!; auto. simpl. lia.
    + intros Hscan.
      destruct (Hnext _ _ _ Hadd Hscan)
        as (processed & rest & new & Hmap & Hinv' & Hrest & Hits & Hfound).
      exists processed, rest, (data :: new).
      split_and!; try done.
      * by rewrite Hits, <- app_assoc.
      * simpl. lia.
Qed.

Section CrawlFacts.

Variable keyword : string.
Variable max_pages : Z.
Variable sleep_sec : Q.
Variable max_items : option Z.
Variable net : string -> fetched.

Local Abbreviation url_of := (page_url keyword).
Local Abbreviation step := (page_step keyword sleep_sec max_items net).
Local Abbreviation loop := (crawl_loop keyword max_pages sleep_sec max_items net).
Local Abbreviation run := (scrape_amazon_search keyword max_pages sleep_sec max_items net).
Local Abbreviation reachable := (reach keyword max_pages sleep_sec max_items net).

(** The two ways through the body of the loop: the fetch fails and the loop
    is left with the state unchanged but for the trace, or the page is
    scanned. *)
Lemma page_step_spec page st :
  (fetch_failed (net (url_of page)) /\
   exists evs,
     step page st = Break (log st ([LogRequesting (url_of page); Get (url_of page)] ++ evs))
     /\ (evs = [LogRequestFailed]
         \/ exists code, evs = [LogStatus code; LogNon200 code]))
  \/
  (exists soup its sn found,
     net (url_of page) = Response 200 soup /\
     scan_blocks max_items (find_product_blocks soup) (items st) (seen st) 0
       = (its, sn, found) /\
     let st' :=
       {| items := its; seen := sn;
          trace := (trace st ++
                    [LogRequesting (url_of page); Get (url_of page); LogStatus 200;
                     LogFound (length (find_product_blocks soup)) page;
                     LogAdded found page (length its); Sleep sleep_sec])%list |} in
     step page st =
       if cap_reached max_items (length its) then Break st'
       else if (found =? 0)%nat then Break st' else NextPage st').
Proof.
  unfold page_step.
  destruct (net (url_of page)) as [|code soup] eqn:Hnet.
  - left. split; [exact I|]. exists [LogRequestFailed]. split; [|by left].
    unfold log. simpl. by rewrite <- app_assoc.
  - destruct (code =? 200)%Z eqn:Hcode; simpl negb; cbv iota.
    + apply Z.eqb_eq in Hcode as ->. right.
      unfold log; simpl.
      destruct (scan_blocks _ _ _ _ _) as [[its sn] found] eqn:Hscan.
      exists soup, its, sn, found. repeat split; [done|].
      cbv zeta. rewrite <- !app_assoc. reflexivity.
    + left. apply Z.eqb_neq in Hcode. split; [exact Hcode|].
      exists [LogStatus code; LogNon200 code]. split; [|right; by exists code].
      unfold log. simpl. by rewrite <- !app_assoc.
Qed.

(** *** Termination *)

Lemma crawl_loop_enough fuel : forall page st,
  Z.to_nat (max_pages + 1 - page) <= fuel ->
  exists r, loop fuel page st = Some r.
Proof.
  induction fuel as [|fuel IH]; intros page st Hfuel; simpl.
  - destruct (page <=? max_pages)%Z eqn:Hle; [|by eexists].
    apply Z.leb_le in Hle. lia.
  - destruct (page <=? max_pages)%Z eqn:Hle; [|by eexists].
    apply Z.leb_le in Hle.
    destruct (step page st) as [r|st']; [by eexists|].
    apply IH. lia.
Qed.

Lemma crawl_loop_more_fuel fuel : forall fuel' page st r,
  loop fuel page st = Some r -> fuel <= fuel' -> loop fuel' page st = Some r.
Proof.
  induction fuel as [|fuel IH]; intros fuel' page st r; simpl.
  - destruct (page <=? max_pages)%Z eqn:Hle; [done|].
    intros [= <-] _. destruct fuel'; simpl; by rewrite Hle.
  - destruct (page <=? max_pages)%Z eqn:Hle.
    + destruct fuel' as [|fuel']; [lia|]. simpl. rewrite Hle.
      destruct (step page st) as [r'|st']; [done|].
      intros Hr Hf. apply IH; [done|lia].
    + intros [= <-] _. destruct fuel'; simpl; by rewrite Hle.
Qed.

Lemma run_returns : exists r, run = Some r.
Proof. apply crawl_loop_enough. lia. Qed.

(** *** The run goes through the reachable states *)

Lemma crawl_loop_from_reachable fuel : forall page st r,
  reachable page st -> loop fuel page st = Some r ->
  (exists p s, reachable p s /\ (p <= max_pages)%Z /\ step p s = Break r)
  \/ (exists p, reachable p r /\ (max_pages < p)%Z).
Proof.
  induction fuel as [|fuel IH]; intros page st r Hreach; simpl.
  - destruct (page <=? max_pages)%Z eqn:Hle; [done|].
    intros [= <-]. right. exists page. split; [done|]. by apply Z.leb_gt.
  - destruct (page <=? max_pages)%Z eqn:Hle.
    + apply Z.leb_le in Hle.
      destruct (step page st) as [r'|st'] eqn:Hstep.
      * intros [= <-]. left. by exists page, st.
      * apply IH. by eapply reach_next.
    + intros [= <-]. right. exists page. split; [done|]. by apply Z.leb_gt.
Qed.

Lemma run_cases r :
  run = Some r ->
  (exists p s, reachable p s /\ (p <= max_pages)%Z /\ step p s = Break r)
  \/ (exists p, reachable p r /\ (max_pages < p)%Z).
Proof. apply crawl_loop_from_reachable. constructor. Qed.

Lemma reachable_page page st : reachable page st -> (1 <= page)%Z.
Proof. induction 1; lia. Qed.

(** From a reachable state the loop ends as the run does. *)
Lemma reachable_run page st :
  reachable page st ->
  loop (Z.to_nat (max_pages + 1 - page)) page st = run.
Proof.
  induction 1 as [|page st st' Hreach IH Hle Hstep].
  - unfold scrape_amazon_search. f_equal. lia.
  - rewrite <- IH.
    replace (Z.to_nat (max_pages + 1 - page))
      with (S (Z.to_nat (max_pages + 1 - (page + 1)))) by lia.
    simpl. rewrite (proj2 (Z.leb_le _ _) Hle), Hstep. reflexivity.
Qed.

(** *** The requests *)

Lemma reachable_gets page st :
  reachable page st -> Z.of_nat (length (gets (trace st))) = (page - 1)%Z.
Proof.
  induction 1 as [|page st st' Hreach IH Hle Hstep]; [reflexivity|].
  destruct (page_step_spec page st) as [(_ & evs & Hbreak & _)|Hok].
  - congruence.
  - destruct Hok as (soup & its & sn & found & _ & _ & Hres). cbv zeta in Hres.
    rewrite Hstep in Hres.
    destruct (cap_reached _ _); [done|]. destruct (found =? 0)%nat; [done|].
    injection Hres as ->. simpl. rewrite gets_app, length_app. simpl. lia.
Qed.

Lemma break_gets page st r :
  step page st = Break r ->
  gets (trace r) = (gets (trace st) ++ [url_of page])%list.
Proof.
  intros Hstep.
  destruct (page_step_spec page st) as [(_ & evs & Hbreak & Hevs)|Hok].
  - rewrite Hstep in Hbreak. injection Hbreak as ->. simpl.
    rewrite !gets_app. by destruct Hevs as [->|[code ->]].
  - destruct Hok as (soup & its & sn & found & _ & _ & Hres). cbv zeta in Hres.
    rewrite Hstep in Hres.
    destruct (cap_reached _ _); [|destruct (found =? 0)%nat; [|done]];
      injection Hres as ->; simpl; by rewrite gets_app.
Qed.

(** *** Deduplication along the run *)

Lemma stream_step (tr : list event) page (evs : list event) :
  stream net (tr ++ LogRequesting (url_of page) :: Get (url_of page) :: evs)
  = (stream net tr ++ page_records net (url_of page) ++ stream net evs)%list.
Proof. by rewrite stream_app. Qed.

Lemma failed_page_records url : fetch_failed (net url) -> page_records net url = [].
Proof.
  unfold page_records, fetch_failed. destruct (net url) as [|code soup]; [done|].
  intros Hcode. by rewrite (proj2 (Z.eqb_neq _ _) Hcode).
Qed.

Lemma ok_page_records url soup :
  net url = Response 200 soup ->
  page_records net url = map extract_from_block (find_product_blocks soup).
Proof. unfold page_records. by intros ->. Qed.

(** One pass through the body keeps the invariant. *)
Lemma page_step_inv page st :
  dedup_inv (items st) (seen st) (stream net (trace st)) ->
  match step page st with
  | NextPage st' => dedup_inv (items st') (seen st') (stream net (trace st'))
  | Break r => dedup_upto max_items (items r) (stream net (trace r))
  end.
Proof.
  intros Hinv.
  destruct (page_step_spec page st) as [(Hfail & evs & -> & Hevs)|Hok].
  - exists (seen st), (stream net (trace st)), []. split_and!; [|done|by left].
    simpl. rewrite stream_step, failed_page_records by done.
    replace (stream net evs) with (@nil product)
      by (by destruct Hevs as [->|[code ->]]).
    reflexivity.
  - destruct Hok as (soup & its & sn & found & Hnet & Hscan & ->).
    destruct (scan_blocks_inv _ _ _ _ _ _ _ _ _ Hinv Hscan)
      as (processed & rest & new & Hmap & Hinv' & Hrest & Hits & Hfound).
    assert (stream net
              (trace st ++
               [LogRequesting (url_of page); Get (url_of page); LogStatus 200;
                LogFound (length (find_product_blocks soup)) page;
                LogAdded found page (length its); Sleep sleep_sec])
            = ((stream net (trace st) ++ processed) ++ rest)%list) as Hstream.
    { rewrite stream_step, (ok_page_records _ _ Hnet), Hmap.
      replace (stream net [LogStatus 200;
                           LogFound (length (find_product_blocks soup)) page;
                           LogAdded found page (length its); Sleep sleep_sec])
        with (@nil product) by reflexivity.
      by rewrite app_nil_r, app_assoc. }
    destruct (cap_reached max_items (length its)) eqn:Hcap.
    { exists sn, (stream net (trace st) ++ processed)%list, rest. simpl.
      split_and!; [done|done|by right]. }
    destruct Hrest as [->|?]; [|congruence]. rewrite app_nil_r in Hstream.
    destruct (found =? 0)%nat; simpl.
    + exists sn, (stream net (trace st) ++ processed)%list, []. simpl.
      rewrite app_nil_r. split_and!; [done|done|by left].
    + by rewrite Hstream.
Qed.

Lemma reachable_inv page st :
  reachable page st -> dedup_inv (items st) (seen st) (stream net (trace st)).
Proof.
  induction 1 as [|page st st' Hreach IH Hle Hstep]; [apply dedup_inv_start|].
  pose proof (page_step_inv page st IH) as Hinv. by rewrite Hstep in Hinv.
Qed.

Lemma run_inv r :
  run = Some r -> dedup_upto max_items (items r) (stream net (trace r)).
Proof.
  intros [(p & s & Hreach & Hle & Hstep)|(p & Hreach & Hlt)]%run_cases.
  - pose proof (page_step_inv p s (reachable_inv _ _ Hreach)) as Hinv.
    by rewrite Hstep in Hinv.
  - exists (seen r), (stream net (trace r)), []. rewrite app_nil_r.
    split_and!; [done|by eapply reachable_inv|by left].
Qed.

(** *** The cap *)

Lemma cap_reached_set m n :
  (1 <= m)%Z -> cap_reached (Some m) n = true <-> (m <= Z.of_nat n)%Z.
Proof.
  intros Hm. unfold cap_reached. rewrite andb_true_iff, negb_true_iff.
  rewrite Z.eqb_neq, Z.leb_le. lia.
Qed.

(** The [for] loop never goes beyond the cap. *)
Lemma scan_blocks_cap m blocks : forall its sn found its' sn' found',
  (1 <= m)%Z -> (Z.of_nat (length its) < m)%Z ->
  scan_blocks (Some m) blocks its sn found = (its', sn', found') ->
  (Z.of_nat (length its') <= m)%Z.
Proof.
  induction blocks as [|b blocks IH]; intros its sn found its' sn' found' Hm Hlen;
    cbn [scan_blocks].
  - intros [= <- <- <-]. lia.
  - set (data := extract_from_block b).
    destruct (falsy_opt (title data)); [by apply IH|].
    destruct (title data) as [t|]; [|by apply IH].
    case_bool_decide; [by apply IH|].
    destruct (cap_reached (Some m) (length (its ++ [data]))) eqn:Hcap.
    + intros [= <- <- <-]. rewrite length_app in *. simpl. lia.
    + apply IH; [done|].
      destruct (decide (m <= Z.of_nat (length (its ++ [data])))%Z) as [Hge|]; [|lia].
      apply (cap_reached_set m _ Hm) in Hge. congruence.
Qed.

Lemma tail_occurrence (l1 l2 pre post : list event) x :
  (l1 ++ l2 = pre ++ x :: post)%list -> x ∉ l1 ->
  exists k, l2 = (k ++ x :: post)%list.
Proof.
  revert pre. induction l1 as [|a l1 IH]; intros pre Heq Hx; simpl in Heq.
  - by exists pre.
  - destruct pre as [|b pre]; simpl in Heq; injection Heq as -> Heq.
    + exfalso. apply Hx. by left.
    + apply (IH pre Heq). intros Hin. apply Hx. by right.
Qed.

(** While the loop goes on, fewer than [m] records are accumulated, and every
    total the log reports is below [m]. *)
Lemma reachable_below_cap m page st :
  max_items = Some m -> (1 <= m)%Z -> reachable page st ->
  (Z.of_nat (length (items st)) < m)%Z /\
  forall f pg total, LogAdded f pg total ∈ trace st -> (Z.of_nat total < m)%Z.
Proof.
  intros Hcap Hm. induction 1 as [|page st st' Hreach [IHlen IHlog] Hle Hstep].
  - split; [simpl; lia|]. by intros f pg total ?%elem_of_nil.
  - destruct (page_step_spec page st) as [(_ & evs & Hbreak & _)|Hok]; [congruence|].
    destruct Hok as (soup & its & sn & found & _ & _ & Hres). cbv zeta in Hres.
    rewrite Hstep in Hres.
    destruct (cap_reached max_items (length its)) eqn:Hreached; [done|].
    destruct (found =? 0)%nat; [done|]. injection Hres as ->. simpl.
    assert (Z.of_nat (length its) < m)%Z as Hlen.
    { destruct (decide (m <= Z.of_nat (length its))%Z) as [Hge|]; [|lia].
      apply (cap_reached_set m _ Hm) in Hge. congruence. }
    split; [done|]. intros f pg total [Hin|Hin]%elem_of_app; [by eapply IHlog|].
    repeat (apply elem_of_cons in Hin as [Hin|Hin]; [by simplify_eq|]).
    by apply elem_of_nil in Hin.
Qed.

Lemma run_within_cap m r :
  max_items = Some m -> (1 <= m)%Z -> run = Some r ->
  (Z.of_nat (length (items r)) <= m)%Z /\
  forall pre f pg total post,
    trace r = (pre ++ LogAdded f pg total :: post)%list ->
    (m <= Z.of_nat total)%Z -> gets post = [].
Proof.
  intros Hcap Hm [(p & s & Hreach & Hle & Hstep)|(p & Hreach & Hlt)]%run_cases.
  - destruct (reachable_below_cap m p s Hcap Hm Hreach) as [Hlen Hlog].
    assert (forall pre f pg total post l2,
      (trace s ++ l2 = pre ++ LogAdded f pg total :: post)%list ->
      (m <= Z.of_nat total)%Z ->
      exists k, l2 = (k ++ LogAdded f pg total :: post)%list) as Htail.
    { intros pre f pg total post l2 Heq Hge. eapply tail_occurrence; [done|].
      intros Hin%Hlog. lia. }
    destruct (page_step_spec p s) as [(_ & evs & Hbreak & Hevs)|Hok].
    + rewrite Hstep in Hbreak. injection Hbreak as ->. simpl. split; [lia|].
      intros pre f pg total post Heq Hge.
      destruct (Htail _ _ _ _ _ _ Heq Hge) as [k Hk]. exfalso.
      destruct Hevs as [->|[code ->]];
        repeat (destruct k as [|? k]; simplify_eq/=).
    + destruct Hok as (soup & its & sn & found & _ & Hscan & Hres).
      cbv zeta in Hres. rewrite Hstep in Hres.
      assert (Z.of_nat (length its) <= m)%Z as Hits.
      { rewrite Hcap in Hscan. by eapply scan_blocks_cap. }
      assert (r = {| items := its; seen := sn;
                     trace := (trace s ++
                       [LogRequesting (url_of p); Get (url_of p); LogStatus 200;
                        LogFound (length (find_product_blocks soup)) p;
                        LogAdded found p (length its); Sleep sleep_sec])%list |})
        as ->.
      { destruct (cap_reached _ _); [|destruct (found =? 0)%nat; [|done]];
          by injection Hres. }
      simpl. split; [done|].
      intros pre f pg total post Heq Hge.
      destruct (Htail _ _ _ _ _ _ Heq Hge) as [k Hk].
      repeat (destruct k as [|? k]; simplify_eq/=); reflexivity.
  - destruct (reachable_below_cap m p r Hcap Hm Hreach) as [Hlen Hlog].
    split; [lia|]. intros pre f pg total post Heq Hge. exfalso.
    assert (Z.of_nat total < m)%Z; [|lia].
    apply (Hlog f pg). rewrite Heq. apply elem_of_app. right. by left.
Qed.

(** *** A failed fetch *)

Lemma failed_fetch_ends_run page st :
  reachable page st -> (page <= max_pages)%Z ->
  fetch_failed (net (url_of page)) ->
  exists r,
    run = Some r /\ items r = items st /\
    gets (trace r) = (gets (trace st) ++ [url_of page])%list /\
    Z.of_nat (length (gets (trace r))) = page.
Proof.
  intros Hreach Hle Hfail.
  destruct (page_step_spec page st) as [(_ & evs & Hbreak & Hevs)|Hok].
  - eexists. rewrite <- (reachable_run _ _ Hreach).
    replace (Z.to_nat (max_pages + 1 - page))
      with (S (Z.to_nat (max_pages - page))) by lia.
    simpl. rewrite (proj2 (Z.leb_le _ _) Hle), Hbreak.
    split_and!; [done|done|..].
    + simpl. rewrite !gets_app. by destruct Hevs as [->|[code ->]].
    + simpl. rewrite !gets_app, !length_app.
      pose proof (reachable_gets _ _ Hreach).
      destruct Hevs as [->|[code ->]]; simpl; lia.
  - destruct Hok as (soup & its & sn & found & Hnet & _).
    rewrite Hnet in Hfail. by simpl in Hfail.
Qed.

(** *** The number of requests *)

Lemma reachable_bound page st :
  reachable page st -> page = 1%Z \/ (page - 1 <= max_pages)%Z.
Proof. destruct 1; [by left|right; lia]. Qed.

Lemma reachable_urls page st :
  reachable page st -> gets (trace st) = url_of <$> seqZ 1 (page - 1).
Proof.
  induction 1 as [|page st st' Hreach IH Hle Hstep]; [reflexivity|].
  pose proof (reachable_page _ _ Hreach) as Hpage.
  destruct (page_step_spec page st) as [(_ & evs & Hbreak & _)|Hok]; [congruence|].
  destruct Hok as (soup & its & sn & found & _ & _ & Hres). cbv zeta in Hres.
  rewrite Hstep in Hres.
  destruct (cap_reached _ _); [done|]. destruct (found =? 0)%nat; [done|].
  injection Hres as ->. simpl. rewrite gets_app, IH. simpl.
  replace (page + 1 - 1)%Z with ((page - 1) + 1)%Z by lia.
  rewrite seqZ_app by lia. rewrite fmap_app. f_equal.
  replace (1 + (page - 1))%Z with page by lia. reflexivity.
Qed.

Lemma run_urls r :
  (1 <= max_pages)%Z -> run = Some r ->
  exists k, (0 <= k <= max_pages)%Z /\ gets (trace r) = url_of <$> seqZ 1 k.
Proof.
  intros Hmax [(p & s & Hreach & Hle & Hstep)|(p & Hreach & Hlt)]%run_cases.
  - exists p. pose proof (reachable_page _ _ Hreach). split; [lia|].
    rewrite (break_gets _ _ _ Hstep), (reachable_urls _ _ Hreach).
    replace p with ((p - 1) + 1)%Z at 3 by lia.
    rewrite seqZ_app by lia. rewrite fmap_app. f_equal.
    replace (1 + (p - 1))%Z with p by lia. reflexivity.
  - exists (p - 1)%Z. pose proof (reachable_page _ _ Hreach).
    destruct (reachable_bound _ _ Hreach); [lia|].
    split; [lia|]. by apply reachable_urls.
Qed.

End CrawlFacts.

(** ** The claims about the crawl *)

(** C2.  With [max_items] set to [m >= 1], the run returns at most [m]
    records, and once the log reports a total of [m] or more, no request
    follows: the crawl has stopped. *)
Theorem item_cap_respected keyword max_pages sleep_sec net m :
  (1 <= m)%Z ->
  exists r,
    scrape_amazon_search keyword max_pages sleep_sec (Some m) net = Some r /\
    (Z.of_nat (length (items r)) <= m)%Z /\
    forall pre f pg total post,
      trace r = (pre ++ LogAdded f pg total :: post)%list ->
      (m <= Z.of_nat total)%Z -> gets post = [].
Proof.
  intros Hm.
  destruct (run_returns keyword max_pages sleep_sec (Some m) net) as [r Hr].
  exists r. split; [done|]. by eapply run_within_cap.
Qed.

Lemma item_cap_respected_witness :
  exists r,
    scrape_amazon_search "rocq books" 5 1%Q (Some 2%Z) two_pages = Some r /\
    (Z.of_nat (length (items r)) <= 2)%Z /\
    forall pre f pg total post,
      trace r = (pre ++ LogAdded f pg total :: post)%list ->
      (2 <= Z.of_nat total)%Z -> gets post = [].
Proof. apply (item_cap_respected "rocq books" 5 1%Q two_pages 2). lia. Defined.

(** C3.  When the fetch of a page fails (the request raises, or the status is
    not 200), the run ends there: it returns, as a normal result, the records
    accumulated before that page, and that request is the last one.  With
    [max_pages = 3], a first page that yields 2 new records and a second page
    whose status is not 200, the run returns those 2 records after exactly
    the 2 requests. *)
Theorem fetch_failure_returns_partial_result :
  (forall keyword max_pages sleep_sec max_items net page st,
     reach keyword max_pages sleep_sec max_items net page st ->
     (page <= max_pages)%Z ->
     fetch_failed (net (page_url keyword page)) ->
     exists r,
       scrape_amazon_search keyword max_pages sleep_sec max_items net = Some r /\
       items r = items st /\
       gets (trace r) = (gets (trace st) ++ [page_url keyword page])%list /\
       Z.of_nat (length (gets (trace r))) = page)
  /\
  (forall keyword sleep_sec net soup1 its sn status_code soup2,
     net (page_url keyword 1) = Response 200 soup1 ->
     scan_blocks None (find_product_blocks soup1) [] ∅ 0 = (its, sn, 2) ->
     net (page_url keyword 2) = Response status_code soup2 ->
     status_code <> 200%Z ->
     exists r,
       scrape_amazon_search keyword 3 sleep_sec None net = Some r /\
       items r = its /\ length its = 2 /\
       gets (trace r) = [page_url keyword 1; page_url keyword 2]).
Proof.
  split; [apply failed_fetch_ends_run|].
  intros keyword sleep_sec net soup1 its sn code soup2 Hnet1 Hscan Hnet2 Hcode.
  set (st1 := {| items := its; seen := sn;
                 trace := [LogRequesting (page_url keyword 1); Get (page_url keyword 1);
                           LogStatus 200;
                           LogFound (length (find_product_blocks soup1)) 1;
                           LogAdded 2 1 (length its); Sleep sleep_sec] |}).
  assert (page_step keyword sleep_sec None net 1 start = NextPage st1) as Hstep.
  { unfold page_step. rewrite Hnet1. simpl. by rewrite Hscan. }
  assert (reach keyword 3 sleep_sec None net (1 + 1) st1) as Hreach.
  { eapply reach_next; [apply reach_start|lia|exact Hstep]. }
  assert (fetch_failed (net (page_url keyword (1 + 1)))) as Hfail.
  { change (1 + 1)%Z with 2%Z. by rewrite Hnet2. }
  destruct (failed_fetch_ends_run keyword 3 sleep_sec None net _ _ Hreach
              ltac:(lia) Hfail) as (r & Hr & Hitems & Hgets & _).
  exists r. split_and!; [done|done| |done].
  destruct (scan_blocks_inv _ _ _ _ _ _ _ _ _ dedup_inv_start Hscan)
    as (_ & _ & new & _ & _ & _ & -> & Hfound). simpl. lia.
Qed.

Lemma fetch_failure_returns_partial_result_witness :
  exists r,
    scrape_amazon_search "rocq books" 3 1%Q None failing_second_page = Some r /\
    items r = [extract_from_block (titled "A"); extract_from_block (titled "B")] /\
    length [extract_from_block (titled "A"); extract_from_block (titled "B")] = 2 /\
    gets (trace r) = ["https://www.amazon.com/s?k=rocq+books&page=1";
                      "https://www.amazon.com/s?k=rocq+books&page=2"].
Proof.
  apply (proj2 fetch_failure_returns_partial_result "rocq books" 1%Q
           failing_second_page (page_of [titled "A"; titled "B"])
           [extract_from_block (titled "A"); extract_from_block (titled "B")]
           ({[ "B" ]} ∪ ({[ "A" ]} ∪ ∅)) 503%Z (page_of [])).
  - vm_compute. reflexivity.
  - vm_compute. reflexivity.
  - vm_compute. reflexivity.
  - discriminate.
Defined.

(** C4.  With [max_pages >= 1] every run terminates (the bound
    [max_pages] on the passes is enough, and a larger one gives the same
    result), and it requests at most [max_pages] pages: the pages 1, 2, ...,
    k for some [k <= max_pages]. *)
Theorem crawl_terminates_within_max_pages keyword max_pages sleep_sec max_items net :
  (1 <= max_pages)%Z ->
  exists r,
    scrape_amazon_search keyword max_pages sleep_sec max_items net = Some r /\
    (forall fuel, Z.to_nat max_pages <= fuel ->
       crawl_loop keyword max_pages sleep_sec max_items net fuel 1 start = Some r) /\
    (Z.of_nat (length (gets (trace r))) <= max_pages)%Z /\
    exists k, (0 <= k <= max_pages)%Z /\
      gets (trace r) = page_url keyword <$> seqZ 1 k.
Proof.
  intros Hmax.
  destruct (run_returns keyword max_pages sleep_sec max_items net) as [r Hr].
  exists r. split; [done|]. split.
  { intros fuel Hfuel. by eapply crawl_loop_more_fuel. }
  destruct (run_urls _ _ _ _ _ _ Hmax Hr) as (k & Hk & Hurls).
  split; [|by exists k].
  rewrite Hurls, length_fmap, length_seqZ. lia.
Qed.

Lemma crawl_terminates_within_max_pages_witness :
  exists r,
    scrape_amazon_search "rocq books" 2 0%Q None two_pages = Some r /\
    (forall fuel, Z.to_nat 2 <= fuel ->
       crawl_loop "rocq books" 2 0%Q None two_pages fuel 1 start = Some r) /\
    (Z.of_nat (length (gets (trace r))) <= 2)%Z /\
    exists k, (0 <= k <= 2)%Z /\
      gets (trace r) = page_url "rocq books" <$> seqZ 1 k.
Proof.
  apply (crawl_terminates_within_max_pages "rocq books" 2 0%Q None two_pages). lia.
Defined.



(** * Further properties *)

(** ** The block locator *)

Lemma filter_empty_iff {A} (P : A -> Prop) `{!forall x, Decision (P x)} (l : list A) :
  filter P l = [] <-> Forall (fun x => ~ P x) l.
Proof.
  induction l as [|x l IH]; [by split|].
  rewrite filter_cons. destruct (decide (P x)) as [Hx|Hx].
  - split; [done|]. intros Hall. by inversion Hall.
  - rewrite IH. split; [by constructor|]. intros Hall. by inversion Hall.
Qed.

Lemma filter_not_empty_iff {A} (P : A -> Prop) `{!forall x, Decision (P x)} (l : list A) :
  filter P l <> [] <-> Exists P l.
Proof.
  induction l as [|x l IH].
  - split; [done|]. intros Hex. inversion Hex.
  - rewrite filter_cons. destruct (decide (P x)) as [Hx|Hx].
    + split; [by left|done].
    + rewrite IH. split; [by right|]. intros Hex. by inversion Hex.
Qed.

Lemma matches_div attrs n :
  matches (Some "div") attrs n = true -> exists a cs, n = Tag "div" a cs.
Proof.
  destruct n as [s|nm a cs]; simpl; [done|].
  intros [Hnm _]%andb_true_iff. apply bool_decide_eq_true in Hnm as ->. eauto.
Qed.

(** X1.  The blocks located are [div] elements of the page, in document order.
    When some [div] carries the search-result role, exactly the elements with
    that role are returned, whatever else the page holds; failing that, when
    some [div] has the secondary class pair, exactly those; and nothing is
    returned only when no [div] answers any of the three strategies. *)
Theorem find_product_blocks_strategies soup :
  find_product_blocks soup `sublist_of` descendants soup
  /\ (forall b, b ∈ find_product_blocks soup -> exists a cs, b = Tag "div" a cs)
  /\ (Exists (fun n => primary_block n = true) (descendants soup) ->
      find_product_blocks soup
      = filter (fun n => primary_block n = true) (descendants soup))
  /\ (Forall (fun n => primary_block n = false) (descendants soup) ->
      Exists (fun n => secondary_block n = true) (descendants soup) ->
      find_product_blocks soup
      = filter (fun n => secondary_block n = true) (descendants soup))
  /\ (find_product_blocks soup = [] <->
      Forall (fun n => primary_block n = false /\ secondary_block n = false
                       /\ asin_block n = false) (descendants soup)).
Proof.
  unfold find_product_blocks, find_all.
  fold primary_block. fold secondary_block.
  set (l := descendants soup).
  set (P1 := fun n => primary_block n = true).
  set (P2 := fun n => secondary_block n = true).
  set (P3 := fun d => falsy_opt (get "data-asin" d) = false).
  set (P0 := fun d => matches (Some "div") [] d = true).
  assert (forall n, asin_block n = false <-> ~ (P0 n /\ P3 n)) as Hasin.
  { intros n. unfold asin_block, P0, P3.
    destruct (matches _ _ n), (falsy_opt _); simpl; intuition congruence. }
  destruct (decide (filter P1 l = [])) as [H1|H1];
    [rewrite (bool_decide_eq_true_2 _ H1)|rewrite (bool_decide_eq_false_2 _ H1)];
    simpl negb; cbv iota.
  2:{ split_and!.
      - apply sublist_filter.
      - intros b [Hb _]%list_elem_of_filter. by eapply matches_div.
      - done.
      - intros Hnone. exfalso. apply H1, filter_empty_iff.
        eapply Forall_impl; [exact Hnone|]. intros n Hn. unfold P1. congruence.
      - split; [done|]. intros Hall. exfalso. apply H1, filter_empty_iff.
        eapply Forall_impl; [exact Hall|]. intros n (Hn & _). unfold P1. congruence. }
  pose proof (proj1 (filter_empty_iff _ _) H1) as Hno1.
  destruct (decide (filter P2 l = [])) as [H2|H2];
    [rewrite (bool_decide_eq_true_2 _ H2)|rewrite (bool_decide_eq_false_2 _ H2)];
    simpl negb; cbv iota.
  2:{ split_and!.
      - apply sublist_filter.
      - intros b [Hb _]%list_elem_of_filter. by eapply matches_div.
      - intros Hex. exfalso. by apply (filter_not_empty_iff P1 l) in Hex.
      - done.
      - split; [done|]. intros Hall. exfalso. apply H2, filter_empty_iff.
        eapply Forall_impl; [exact Hall|]. intros n (_ & Hn & _). unfold P2. congruence. }
  pose proof (proj1 (filter_empty_iff _ _) H2) as Hno2.
  split_and!.
  - etrans; apply sublist_filter.
  - intros b [_ [Hb _]%list_elem_of_filter]%list_elem_of_filter. by eapply matches_div.
  - intros Hex. exfalso. by apply (filter_not_empty_iff P1 l) in Hex.
  - intros _ Hex. exfalso. by apply (filter_not_empty_iff P2 l) in Hex.
  - rewrite list_filter_filter, filter_empty_iff. rewrite !Forall_forall.
    split.
    + intros Hall n Hn. split_and!.
      * rewrite Forall_forall in Hno1. specialize (Hno1 n Hn).
        unfold P1 in Hno1. by destruct (primary_block n).
      * rewrite Forall_forall in Hno2. specialize (Hno2 n Hn).
        unfold P2 in Hno2. by destruct (secondary_block n).
      * apply Hasin. specialize (Hall n Hn). tauto.
    + intros Hall n Hn. destruct (Hall n Hn) as (_ & _ & H3).
      apply Hasin in H3. tauto.
Qed.

Lemma find_product_blocks_strategies_witness :
  find_product_blocks nested_page
  = [ Tag "div" {[ "data-component-type" := "s-search-result" ]}
        [ Tag "div" {[ "data-asin" := "B09" ]} [ Text "inner" ] ] ].
Proof.
  rewrite (proj1 (proj2 (proj2 (find_product_blocks_strategies nested_page)))).
  - vm_compute. reflexivity.
  - do 2 apply Exists_cons_tl. apply Exists_cons_hd. vm_compute. reflexivity.
Defined.

(** ** The field extractor *)

Lemma lstrip_starts_clean s : starts_clean (lstrip s).
Proof.
  induction s as [|c r IH]; simpl; [done|].
  by destruct (isspace c) eqn:Hc.
Qed.

Lemma rstrip_starts_clean s : starts_clean s -> starts_clean (rstrip s).
Proof.
  destruct s as [|c r]; simpl; [done|]. intros Hc.
  rewrite Hc, andb_false_r. done.
Qed.

Lemma rstrip_idem s : rstrip (rstrip s) = rstrip s.
Proof.
  induction s as [|c r IH]; simpl; [done|].
  destruct (falsy (rstrip r) && isspace c) eqn:Hstop; [done|].
  simpl. by rewrite IH, Hstop.
Qed.

Lemma starts_clean_lstrip s : starts_clean s -> lstrip s = s.
Proof. destruct s as [|c r]; simpl; [done|]. by intros ->. Qed.

Lemma rstrip_app_fixed a b :
  rstrip b = b -> b <> "" -> rstrip (a +:+ b) = a +:+ b.
Proof.
  intros Hb Hne. induction a as [|c a IH]; [done|].
  change (String c a +:+ b) with (String c (a +:+ b)). simpl. rewrite IH.
  assert (falsy (a +:+ b) = false) as ->; [|done].
  destruct a; [by apply falsy_false|done].
Qed.

(** A text is stripped when stripping changes nothing. *)
Lemma stripped_intro s : starts_clean s -> rstrip s = s -> strip s = s.
Proof. intros Hs Hr. unfold strip. by rewrite starts_clean_lstrip. Qed.

Lemma stripped_strings_clean l :
  starts_clean (stripped_strings l) /\ rstrip (stripped_strings l) = stripped_strings l.
Proof.
  induction l as [|[s|nm a cs] l [IH1 IH2]]; simpl; [done| |done].
  destruct (falsy (strip s)) eqn:Hf; [done|].
  apply falsy_false in Hf.
  assert (starts_clean (strip s)) as Hstart
    by apply rstrip_starts_clean, lstrip_starts_clean.
  split.
  - destruct (strip s); done.
  - destruct (stripped_strings l) eqn:Hrest.
    + rewrite app_empty_r. apply rstrip_idem.
    + by apply rstrip_app_fixed.
Qed.

Lemma safe_text_stripped elem t : safe_text elem = Some t -> strip t = t.
Proof.
  destruct elem as [e|]; [|done]. intros [= <-].
  apply stripped_intro; apply stripped_strings_clean.
Qed.

Lemma or_else_cases (Q : string -> Prop) a b t :
  (forall u, a = Some u -> Q u) -> (forall u, b = Some u -> Q u) ->
  or_else a b = Some t -> Q t.
Proof. unfold or_else. destruct (falsy_opt a); auto. Qed.

Ltac solve_stripped :=
  repeat match goal with
  | |- forall u, _ = Some u -> strip u = u => intros ?
  | |- safe_text _ = Some _ -> strip _ = _ => apply safe_text_stripped
  | |- Some (get_text_strip ?n) = Some _ -> strip _ = _ =>
      apply (safe_text_stripped (Some n))
  | |- or_else _ _ = Some ?t -> strip ?t = ?t =>
      apply (or_else_cases (fun u => strip u = u))
  | |- None = Some _ -> _ => done
  end.

(** X2.  The title, the raw price and the author of an extracted record carry no
    whitespace at either end: stripping them again changes nothing. *)
Theorem extracted_texts_are_stripped block t :
  title (extract_from_block block) = Some t
  \/ price_raw (extract_from_block block) = Some t
  \/ author (extract_from_block block) = Some t ->
  strip t = t.
Proof.
  simpl. intros [Ht|[Ht|Ht]]; revert Ht.
  - unfold extract_title.
    destruct (find (Some "h2") [] block) as [h2|];
      [destruct (falsy_opt _)|simpl]; solve_stripped.
  - unfold extract_price_raw.
    destruct (find (Some "span") [("class", Equals "a-price")] block) as [sp|];
      [destruct (falsy_opt _)|simpl]; solve_stripped.
  - unfold extract_author.
    destruct (find (Some "div") _ block) as [ac|];
      [destruct (falsy_opt _)|simpl];
      try destruct (find_by _ block); solve_stripped.
Qed.

Lemma extracted_texts_are_stripped_witness :
  strip "Rocq in Action" = "Rocq in Action".
Proof.
  apply (extracted_texts_are_stripped
           (sample_block "  Rocq in Action " "/dp/B01" "$39.99" "4.5 out of 5 stars")).
  left. vm_compute. reflexivity.
Defined.

(** X3.  Where the rating text comes from: the text of the first rating icon when
    there is one, whatever it is; otherwise the label of the first labelled
    element when that label holds the phrase, taken as it is written; and
    nothing otherwise. *)
Theorem rating_raw_sources block :
  (forall icon,
     first_match rating_icon block icon ->
     rating_raw (extract_from_block block) = Some (get_text_strip icon))
  /\ (Forall (fun n => rating_icon n = false) (descendants block) ->
      forall aria label,
        first_match aria_labelled block aria ->
        get "aria-label" aria = Some label ->
        rating_raw (extract_from_block block)
        = if contains rating_phrase label then Some label else None)
  /\ (Forall (fun n => rating_icon n = false) (descendants block) ->
      Forall (fun n => aria_labelled n = false) (descendants block) ->
      rating_raw (extract_from_block block) = None).
Proof.
  simpl. split_and!.
  - intros icon Hicon%find_by_first.
    unfold extract_rating_raw, find. unfold rating_icon in Hicon. by rewrite Hicon.
  - intros Hnone%find_by_none aria label Haria%find_by_first Hlabel.
    rewrite (extract_rating_fallback _ Hnone), Haria, Hlabel. done.
  - intros Hnone%find_by_none Hnolabel%find_by_none.
    by rewrite (extract_rating_fallback _ Hnone), Hnolabel.
Qed.

Lemma rating_raw_sources_witness :
  rating_raw (extract_from_block labelled_block) = Some "4.5 out of 5 stars".
Proof.
  apply (proj1 (proj2 (rating_raw_sources labelled_block))
           ltac:(by repeat constructor)
           (Tag "span" {[ "aria-label" := "4.5 out of 5 stars" ]} [])
           "4.5 out of 5 stars").
  - exists [Tag "a" {[ "href" := "/dp/B03" ]} [ Text "Rocq in Action" ];
            Text "Rocq in Action"], [].
    split_and!; [reflexivity|by repeat constructor|reflexivity].
  - reflexivity.
Defined.

Lemma anchor_href_present a :
  anchor_with_href a = true -> exists href, get "href" a = Some href.
Proof.
  unfold anchor_with_href, matches. destruct a as [s|nm attrs cs]; [done|].
  intros [_ Hattrs]%andb_true_iff. simpl in Hattrs.
  destruct (attrs !! "href") as [href|] eqn:Hhref; [|done].
  exists href. done.
Qed.

Lemma prefix_app s t : String.prefix s (s +:+ t) = true.
Proof.
  induction s as [|c s IH]; [by destruct t|].
  change (String c s +:+ t) with (String c (s +:+ t)). simpl.
  by destruct (ascii_dec c c).
Qed.

(** X4.  The link is absent exactly when no anchor of the block has an href, and
    a link that is present begins with the site's origin. *)
Theorem link_absent_iff block :
  (link (extract_from_block block) = None
   <-> Forall (fun n => anchor_with_href n = false) (descendants block))
  /\ (forall l, link (extract_from_block block) = Some l ->
        String.prefix origin l = true).
Proof.
  simpl. unfold extract_link, find. fold anchor_with_href. split.
  - rewrite <- find_by_none.
    destruct (find_by anchor_with_href block) as [a|] eqn:Hfind; [|done].
    apply find_by_first in Hfind as (_ & _ & _ & _ & Ha).
    destruct (anchor_href_present _ Ha) as [href ->]. done.
  - intros l. destruct (find_by anchor_with_href block) as [a|]; [|done].
    destruct (get "href" a); [|done]. intros [= <-]. apply prefix_app.
Qed.

Lemma link_absent_iff_witness :
  String.prefix origin "https://www.amazon.com/dp/B03" = true.
Proof.
  apply (proj2 (link_absent_iff labelled_block)). vm_compute. reflexivity.
Defined.

(** ** When [parse_price] gives a number *)

Lemma span_digits_app ip r :
  all_chars is_ascii_digit ip ->
  match r with "" => True | String c _ => is_ascii_digit c = false end ->
  span_digits (ip +:+ r) = (ip, r).
Proof.
  intros Hip Hr. induction ip as [|c ip IH].
  - change ("" +:+ r) with r. destruct r as [|c r]; simpl; [done|]. by rewrite Hr.
  - destruct Hip as [Hc Hip].
    change (String c ip +:+ r) with (String c (ip +:+ r)). simpl.
    by rewrite Hc, IH.
Qed.

Lemma digits_are_price_chars s : all_chars is_ascii_digit s -> all_chars price_char s.
Proof. apply all_chars_weaken, digit_is_price_char. Qed.

Lemma parse_decimal_digits ip fp (dot : bool) :
  all_chars is_ascii_digit ip -> all_chars is_ascii_digit fp ->
  ip +:+ fp <> "" -> (dot = false -> fp = "") ->
  parse_decimal (ip +:+ (if dot then "." +:+ fp else ""))
  = Some (decimal_value ip fp 0).
Proof.
  intros Hip Hfp Hne Hdot. unfold parse_decimal.
  assert (falsy ip && falsy fp = false) as Hboth.
  { destruct ip; [|done]. destruct fp; [|done]. done. }
  destruct dot.
  - change ("." +:+ fp) with (String "." fp).
    rewrite span_digits_app by done. cbv beta iota zeta.
    rewrite bool_decide_eq_true_2 by done.
    pose proof (span_digits_app fp "" Hfp I) as Hspan.
    rewrite app_empty_r in Hspan. rewrite Hspan. cbv beta iota zeta.
    rewrite Hboth. done.
  - rewrite (Hdot eq_refl) in *. rewrite span_digits_app by done.
    cbv beta iota zeta. rewrite Hboth. done.
Qed.

Lemma float_digits ip fp (dot : bool) :
  all_chars is_ascii_digit ip -> all_chars is_ascii_digit fp ->
  ip +:+ fp <> "" -> (dot = false -> fp = "") ->
  float (ip +:+ (if dot then "." +:+ fp else ""))
  = Some (FNum false (decimal_value ip fp 0)).
Proof.
  intros Hip Hfp Hne Hdot.
  assert (all_chars price_char (ip +:+ (if dot then "." +:+ fp else ""))) as Hall.
  { apply all_chars_app; [by apply digits_are_price_chars|].
    destruct dot; [|done]. split; [done|]. by apply digits_are_price_chars. }
  unfold float. rewrite drop_underscores_id by done.
  rewrite lstrip_f_id, rstrip_f_id, take_sign_none by done.
  by rewrite parse_decimal_digits.
Qed.

Lemma count_points_keep s : count_points (keep_price_chars s) = count_points s.
Proof.
  induction s as [|c r IH]; [done|]. cbn [keep_price_chars count_points].
  destruct (price_char c) eqn:Hc; cbn [count_points]; rewrite IH; [done|].
  case_bool_decide as Hdot; [|done]. subst c. by vm_compute in Hc.
Qed.

Lemma count_points_app a b :
  count_points (a +:+ b) = count_points a + count_points b.
Proof.
  induction a as [|c a IH]; [done|].
  rewrite str_app_cons. cbn [count_points]. rewrite IH. lia.
Qed.

Lemma count_points_digits s : all_chars is_ascii_digit s -> count_points s = 0.
Proof.
  induction s as [|c r IH]; [done|]. intros [Hc Hr]. cbn [count_points].
  rewrite IH by done. case_bool_decide as Hdot; [|done].
  subst c. by vm_compute in Hc.
Qed.

(** X5.  When the digits and points [parse_price] keeps are ASCII digits with
    at most one point among them, and at least one digit, it gives the decimal
    number they write; and a text with two or more points gives nothing,
    whatever else it holds. *)
Theorem parse_price_decimal_shapes :
  (forall text ip fp (dot : bool),
     all_chars is_ascii_digit ip -> all_chars is_ascii_digit fp ->
     ip +:+ fp <> "" -> (dot = false -> fp = "") ->
     keep_price_chars text = ip +:+ (if dot then "." +:+ fp else "") ->
     parse_price (Some text) = Some (FNum false (decimal_value ip fp 0)))
  /\ (forall text, 2 <= count_points text -> parse_price (Some text) = None).
Proof.
  split.
  - intros text ip fp dot Hip Hfp Hne Hdot Hkept.
    rewrite parse_price_unfold, Hkept.
    assert (falsy (ip +:+ (if dot then "." +:+ fp else "")) = false) as ->.
    { destruct ip; [|done]. destruct dot; [done|].
      rewrite (Hdot eq_refl) in Hne. done. }
    by apply float_digits.
  - intros text Hpoints. rewrite parse_price_unfold.
    destruct (falsy (keep_price_chars text)); [done|].
    destruct (float (keep_price_chars text)) as [v|] eqn:Hv; [|done].
    destruct (float_price_chars _ _ (keep_price_chars_all text) Hv)
      as (ip & fp & Hip & Hfp & Hshape & _).
    rewrite <- count_points_keep in Hpoints. exfalso.
    destruct Hshape as [[Hk _]|Hk]; rewrite Hk in Hpoints.
    + rewrite count_points_digits in Hpoints by done. lia.
    + rewrite !count_points_app in Hpoints.
      rewrite (count_points_digits ip), (count_points_digits fp) in Hpoints
        by done.
      change (count_points ".") with 1 in Hpoints. lia.
Qed.

Lemma parse_price_decimal_shapes_witness :
  parse_price (Some "EUR 1.299") = Some (FNum false (decimal_value "1" "299" 0))
  /\ parse_price (Some "1.299.00") = None.
Proof.
  split.
  - apply (proj1 parse_price_decimal_shapes "EUR 1.299" "1" "299" true);
      [by vm_compute|by vm_compute|done|done|reflexivity].
  - apply (proj2 parse_price_decimal_shapes). vm_compute. lia.
Defined.

(** ** The request URLs *)

Lemma rstrip_no_space s : all_chars (fun c => negb (isspace c)) s -> rstrip s = s.
Proof.
  induction s as [|c r IH]; simpl; [done|]. intros [Hc Hr].
  apply negb_true_iff in Hc. by rewrite IH, Hc, andb_false_r.
Qed.

Lemma strip_no_space s : all_chars (fun c => negb (isspace c)) s -> strip s = s.
Proof.
  intros Hs. apply stripped_intro; [|by apply rstrip_no_space].
  destruct s as [|c r]; [done|]. destruct Hs as [Hc _]. by apply negb_true_iff in Hc.
Qed.

Lemma prefix_space c r :
  String.prefix " " (String c r) = bool_decide (c = " "%char).
Proof.
  cbn [String.prefix]. destruct (ascii_dec " "%char c) as [<-|Hne].
  - by destruct r.
  - rewrite bool_decide_eq_false_2; [done|congruence].
Qed.

Lemma replace_space_plus s :
  replace " " "+" s
  = match s with
    | "" => ""
    | String c r =>
        String (if bool_decide (c = " "%char) then "+"%char else c)
               (replace " " "+" r)
    end.
Proof.
  unfold replace. simpl falsy. cbv iota. destruct s as [|c r]; [done|].
  cbn [replace_go]. rewrite prefix_space. case_bool_decide; reflexivity.
Qed.

Lemma replace_space_no_space s :
  all_chars (fun c => negb (bool_decide (c = " "%char))) (replace " " "+" s).
Proof.
  induction s as [|c r IH]; rewrite replace_space_plus; [done|].
  split; [|done]. destruct (decide (c = " "%char)) as [->|Hc]; [reflexivity|].
  rewrite (bool_decide_eq_false_2 _ Hc). cbv iota.
  by rewrite (bool_decide_eq_false_2 _ Hc).
Qed.

Lemma replace_space_id s :
  all_chars (fun c => negb (isspace c)) s -> replace " " "+" s = s.
Proof.
  induction s as [|c r IH]; rewrite replace_space_plus; [done|].
  intros [Hc Hr]. rewrite IH by done.
  rewrite bool_decide_eq_false_2; [done|]. by intros ->.
Qed.

(** X6.  The query of the request URL holds no space character, and a keyword
    without whitespace goes into the URL as it is: no character of it is
    encoded. *)
Theorem base_query_spaces keyword :
  all_chars (fun c => negb (bool_decide (c = " "%char))) (base_query keyword)
  /\ (all_chars (fun c => negb (isspace c)) keyword ->
      base_query keyword = keyword
      /\ forall page,
           page_url keyword page
           = "https://www.amazon.com/s?k=" +:+ keyword +:+ "&page=" +:+ pretty page).
Proof.
  split; [apply replace_space_no_space|].
  intros Hk. unfold page_url, base_query.
  rewrite strip_no_space, replace_space_id by done. done.
Qed.

Lemma base_query_spaces_witness :
  base_query "c&a=1#x" = "c&a=1#x"
  /\ forall page,
       page_url "c&a=1#x" page
       = "https://www.amazon.com/s?k=" +:+ "c&a=1#x" +:+ "&page=" +:+ pretty page.
Proof. apply (proj2 (base_query_spaces "c&a=1#x")). by vm_compute. Defined.

Lemma page_url_inj keyword : Inj (=) (=) (page_url keyword).
Proof.
  intros p1 p2 Heq. unfold page_url in Heq.
  do 3 apply String.app_inj in Heq. by apply (inj pretty) in Heq.
Qed.

Section CrawlEdges.

Variable keyword : string.
Variable max_pages : Z.
Variable sleep_sec : Q.
Variable net : string -> fetched.

Local Abbreviation url_of := (page_url keyword).

(** *** A cap of zero *)

Lemma scan_blocks_zero blocks : forall its sn found,
  scan_blocks (Some 0%Z) blocks its sn found = scan_blocks None blocks its sn found.
Proof.
  induction blocks as [|b blocks IH]; intros its sn found; [done|].
  cbn [scan_blocks]. cbv zeta.
  destruct (falsy_opt _); [done|]. destruct (title _); [|done].
  case_bool_decide; [done|]. simpl cap_reached. cbv iota. apply IH.
Qed.

Lemma page_step_zero page st :
  page_step keyword sleep_sec (Some 0%Z) net page st
  = page_step keyword sleep_sec None net page st.
Proof.
  unfold page_step. destruct (net (url_of page)) as [|code soup]; [done|].
  destruct (negb (code =? 200)%Z); [done|].
  by rewrite scan_blocks_zero.
Qed.

Lemma crawl_loop_zero fuel : forall page st,
  crawl_loop keyword max_pages sleep_sec (Some 0%Z) net fuel page st
  = crawl_loop keyword max_pages sleep_sec None net fuel page st.
Proof.
  induction fuel as [|fuel IH]; intros page st; [done|].
  simpl. rewrite page_step_zero.
  destruct (page <=? max_pages)%Z; [|done].
  by destruct (page_step _ _ _ _ _ _).
Qed.

(** *** A negative cap *)

Lemma cap_reached_negative m n : (m < 0)%Z -> cap_reached (Some m) n = true.
Proof.
  intros Hm. unfold cap_reached. apply andb_true_iff. split.
  - apply negb_true_iff, Z.eqb_neq. lia.
  - apply Z.leb_le. lia.
Qed.

Lemma scan_blocks_negative m blocks : forall its sn found its' sn' found',
  (m < 0)%Z ->
  scan_blocks (Some m) blocks its sn found = (its', sn', found') ->
  length its' <= S (length its).
Proof.
  induction blocks as [|b blocks IH]; intros its sn found its' sn' found' Hm;
    cbn [scan_blocks]; cbv zeta.
  - intros [= <- <- <-]. lia.
  - destruct (falsy_opt _); [by apply IH|]. destruct (title _); [|by apply IH].
    case_bool_decide; [by apply IH|].
    rewrite cap_reached_negative by done. intros [= <- <- <-].
    rewrite length_app. simpl. lia.
Qed.

End CrawlEdges.

(** X7.  A cap of 0 is no cap: the run is the one without [max_items]. *)
Theorem zero_cap_is_no_cap keyword max_pages sleep_sec net :
  scrape_amazon_search keyword max_pages sleep_sec (Some 0%Z) net
  = scrape_amazon_search keyword max_pages sleep_sec None net.
Proof. apply crawl_loop_zero. Qed.

(** X8.  A negative cap, which the function accepts, ends the run with its first
    page: one request, and at most one record. *)
Theorem negative_cap_stops_at_once keyword max_pages sleep_sec net m :
  (m < 0)%Z -> (1 <= max_pages)%Z ->
  exists r,
    scrape_amazon_search keyword max_pages sleep_sec (Some m) net = Some r /\
    gets (trace r) = [page_url keyword 1] /\
    length (items r) <= 1.
Proof.
  intros Hm Hmax. unfold scrape_amazon_search.
  replace (Z.to_nat max_pages) with (S (Z.to_nat (max_pages - 1))) by lia.
  simpl. rewrite (proj2 (Z.leb_le _ _) Hmax).
  destruct (page_step_spec keyword sleep_sec (Some m) net 1 start)
    as [(_ & evs & Hbreak & Hevs)|Hok].
  - rewrite Hbreak. eexists. split; [done|]. simpl. split; [|lia].
    by destruct Hevs as [->|[code ->]].
  - destruct Hok as (soup & its & sn & found & _ & Hscan & ->).
    rewrite cap_reached_negative by done. eexists. split; [done|].
    split; [done|]. simpl.
    by apply (scan_blocks_negative _ _ _ _ _ _ _ _ Hm Hscan).
Qed.

Lemma negative_cap_stops_at_once_witness :
  exists r,
    scrape_amazon_search "rocq books" 2 0%Q (Some (-1)%Z) two_pages = Some r /\
    gets (trace r) = [page_url "rocq books" 1] /\
    length (items r) <= 1.
Proof. apply negative_cap_stops_at_once; lia. Defined.

Lemma run_without_pages keyword max_pages sleep_sec max_items net :
  (max_pages < 1)%Z ->
  scrape_amazon_search keyword max_pages sleep_sec max_items net = Some start.
Proof.
  intros Hmax. unfold scrape_amazon_search.
  destruct (Z.to_nat max_pages); simpl;
    by rewrite (proj2 (Z.leb_gt _ _) Hmax).
Qed.

(** X9.  With [max_pages] below 1 the run requests nothing, sleeps never and
    returns nothing. *)
Theorem no_pages_no_requests keyword max_pages sleep_sec max_items net :
  (max_pages < 1)%Z ->
  exists r,
    scrape_amazon_search keyword max_pages sleep_sec max_items net = Some r /\
    items r = [] /\ trace r = [].
Proof. intros Hmax. exists start. by rewrite run_without_pages. Qed.

Lemma no_pages_no_requests_witness :
  exists r,
    scrape_amazon_search "rocq books" 0 1%Q (Some 3%Z) two_pages = Some r /\
    items r = [] /\ trace r = [].
Proof. apply no_pages_no_requests. lia. Defined.

(** X10.  No URL is requested twice in a run. *)
Theorem requests_are_distinct keyword max_pages sleep_sec max_items net r :
  scrape_amazon_search keyword max_pages sleep_sec max_items net = Some r ->
  NoDup (gets (trace r)).
Proof.
  intros Hr. destruct (decide (1 <= max_pages)%Z) as [Hmax|Hmax].
  - destruct (run_urls _ _ _ _ _ _ Hmax Hr) as (k & _ & ->).
    apply NoDup_fmap_2; [apply page_url_inj|apply NoDup_seqZ].
  - rewrite run_without_pages in Hr by lia. injection Hr as <-. constructor.
Qed.

Lemma requests_are_distinct_witness :
  NoDup (gets (trace (default start
                        (scrape_amazon_search "rocq books" 2 0%Q None two_pages)))).
Proof.
  apply (requests_are_distinct "rocq books" 2 0%Q None two_pages).
  vm_compute. reflexivity.
Defined.

(** ** The result as one pass over the records fetched *)

Lemma first_by_title_cons sn d l :
  first_by_title sn (d :: l)
  = match title d with
    | Some t =>
        if falsy t || bool_decide (t ∈ sn) then first_by_title sn l
        else d :: first_by_title ({[ t ]} ∪ sn) l
    | None => first_by_title sn l
    end.
Proof. reflexivity. Qed.

Lemma first_by_title_app l1 : forall sn l2,
  first_by_title sn (l1 ++ l2)
  = (first_by_title sn l1 ++ first_by_title (titles_after sn l1) l2)%list.
Proof.
  induction l1 as [|d l1 IH]; intros sn l2; [done|]. simpl.
  destruct (title d) as [t|]; [|apply IH].
  destruct (falsy t || bool_decide (t ∈ sn)); [apply IH|].
  simpl. by rewrite IH.
Qed.

Lemma titles_after_app l1 : forall sn l2,
  titles_after sn (l1 ++ l2) = titles_after (titles_after sn l1) l2.
Proof.
  induction l1 as [|d l1 IH]; intros sn l2; [done|]. simpl.
  destruct (title d) as [t|]; [|apply IH].
  destruct (falsy t || bool_decide (t ∈ sn)); apply IH.
Qed.

Lemma first_by_title_sublist l : forall sn, first_by_title sn l `sublist_of` l.
Proof.
  induction l as [|d l IH]; intros sn; simpl; [constructor|].
  destruct (title d) as [t|]; [|by apply sublist_cons].
  destruct (falsy t || bool_decide (t ∈ sn)); [by apply sublist_cons|].
  by apply sublist_skip.
Qed.

(** The [for] loop appends what one pass keeps of the records it goes
    through. *)
Lemma scan_blocks_first cap blocks : forall its sn found its' sn' found',
  scan_blocks cap blocks its sn found = (its', sn', found') ->
  exists processed rest,
    map extract_from_block blocks = (processed ++ rest)%list /\
    its' = (its ++ first_by_title sn processed)%list /\
    sn' = titles_after sn processed /\
    found' = found + length (first_by_title sn processed) /\
    (rest = [] \/ cap_reached cap (length its') = true).
Proof.
  induction blocks as [|b blocks IH]; intros its sn found its' sn' found';
    cbn [scan_blocks map].
  - intros [= <- <- <-]. exists [], []. simpl. rewrite app_nil_r.
    split_and!; auto.
  - generalize (extract_from_block b). intros data.
    assert (forall its1 sn1 found1 kept,
      first_by_title sn (data :: nil) = kept -> titles_after sn [data] = sn1 ->
      its1 = (its ++ kept)%list -> found1 = found + length kept ->
      scan_blocks cap blocks its1 sn1 found1 = (its', sn', found') ->
      exists processed rest,
        data :: map extract_from_block blocks = (processed ++ rest)%list /\
        its' = (its ++ first_by_title sn processed)%list /\
        sn' = titles_after sn processed /\
        found' = found + length (first_by_title sn processed) /\
        (rest = [] \/ cap_reached cap (length its') = true)) as Hnext.
    { intros its1 sn1 found1 kept Hkept Hsn Hits Hfound Hscan.
      destruct (IH _ _ _ _ _ _ Hscan)
        as (processed & rest & Hmap & Hits' & Hsn' & Hfound' & Hrest).
      exists (data :: processed), rest.
      change (data :: processed) with ([data] ++ processed)%list.
      rewrite first_by_title_app, titles_after_app, Hkept, Hsn, length_app.
      split_and!; try done.
      - simpl. by rewrite Hmap.
      - by rewrite Hits', Hits, <- app_assoc.
      - lia. }
    destruct (falsy_opt (title data)) eqn:Hfalsy.
    { apply (Hnext its sn found []); [| |by rewrite app_nil_r|simpl; lia];
        simpl; (destruct (title data) as [t|]; [|done]); simpl in Hfalsy;
        by rewrite Hfalsy. }
    destruct (title data) as [t|] eqn:Ht; [|done]. simpl in Hfalsy.
    case_bool_decide as Hseen.
    { apply (Hnext its sn found []); [| |by rewrite app_nil_r|simpl; lia];
        simpl; rewrite Ht, Hfalsy; by rewrite bool_decide_eq_true_2. }
    assert (first_by_title sn [data] = [data]) as Hkept.
    { simpl. rewrite Ht, Hfalsy. by rewrite bool_decide_eq_false_2. }
    assert (titles_after sn [data] = {[ t ]} ∪ sn) as Hsn.
    { simpl. rewrite Ht, Hfalsy. by rewrite bool_decide_eq_false_2. }
    destruct (cap_reached cap (length (its ++ [data]))) eqn:Hcap.
    + intros [= <- <- <-]. exists [data], (map extract_from_block blocks).
      rewrite Hkept, Hsn. split_and!; auto. simpl. lia.
    + apply (Hnext _ _ _ [data]); [done|done|done|simpl; lia].
Qed.

Lemma sleeps_app tr1 tr2 : sleeps (tr1 ++ tr2) = (sleeps tr1 ++ sleeps tr2)%list.
Proof.
  induction tr1 as [|e tr1 IH]; [reflexivity|].
  destruct e; simpl; by rewrite IH.
Qed.

Section CrawlMore.

Variable keyword : string.
Variable max_pages : Z.
Variable sleep_sec : Q.
Variable max_items : option Z.
Variable net : string -> fetched.

Local Abbreviation url_of := (page_url keyword).
Local Abbreviation step := (page_step keyword sleep_sec max_items net).
Local Abbreviation run := (scrape_amazon_search keyword max_pages sleep_sec max_items net).
Local Abbreviation reachable := (reach keyword max_pages sleep_sec max_items net).

Lemma page_step_first page st :
  items st = first_by_title ∅ (stream net (trace st)) ->
  seen st = titles_after ∅ (stream net (trace st)) ->
  match step page st with
  | NextPage st' =>
      items st' = first_by_title ∅ (stream net (trace st')) /\
      seen st' = titles_after ∅ (stream net (trace st'))
  | Break r =>
      exists done rest,
        stream net (trace r) = (done ++ rest)%list /\
        items r = first_by_title ∅ done /\
        (rest = [] \/ cap_reached max_items (length (items r)) = true)
  end.
Proof.
  intros Hitems Hseen.
  destruct (page_step_spec keyword sleep_sec max_items net page st)
    as [(Hfail & evs & -> & Hevs)|Hok].
  - exists (stream net (trace st)), []. split_and!; [|done|by left].
    simpl. rewrite stream_step, failed_page_records by done.
    replace (stream net evs) with (@nil product)
      by (by destruct Hevs as [->|[code ->]]).
    reflexivity.
  - destruct Hok as (soup & its & sn & found & Hnet & Hscan & ->).
    destruct (scan_blocks_first _ _ _ _ _ _ _ _ Hscan)
      as (processed & rest & Hmap & Hits & Hsn & Hfound & Hrest).
    assert (stream net
              (trace st ++
               [LogRequesting (url_of page); Get (url_of page); LogStatus 200;
                LogFound (length (find_product_blocks soup)) page;
                LogAdded found page (length its); Sleep sleep_sec])
            = ((stream net (trace st) ++ processed) ++ rest)%list) as Hstream.
    { rewrite stream_step, (ok_page_records _ _ _ Hnet), Hmap.
      replace (stream net [LogStatus 200;
                           LogFound (length (find_product_blocks soup)) page;
                           LogAdded found page (length its); Sleep sleep_sec])
        with (@nil product) by reflexivity.
      by rewrite app_nil_r, app_assoc. }
    assert (its = first_by_title ∅ (stream net (trace st) ++ processed)) as Hits'.
    { by rewrite first_by_title_app, <- Hitems, <- Hseen. }
    assert (sn = titles_after ∅ (stream net (trace st) ++ processed)) as Hsn'.
    { by rewrite titles_after_app, <- Hseen. }
    destruct (cap_reached max_items (length its)) eqn:Hcap.
    { exists (stream net (trace st) ++ processed)%list, rest. simpl.
      split_and!; [done|done|by right]. }
    destruct Hrest as [->|?]; [|congruence]. rewrite app_nil_r in Hstream.
    destruct (found =? 0)%nat; simpl.
    + exists (stream net (trace st) ++ processed)%list, []. simpl.
      rewrite app_nil_r. split_and!; [done|done|by left].
    + by rewrite Hstream.
Qed.

Lemma reachable_first page st :
  reachable page st ->
  items st = first_by_title ∅ (stream net (trace st)) /\
  seen st = titles_after ∅ (stream net (trace st)).
Proof.
  induction 1 as [|page st st' Hreach [IH1 IH2] Hle Hstep]; [done|].
  pose proof (page_step_first page st IH1 IH2) as Hinv. by rewrite Hstep in Hinv.
Qed.

Lemma run_first r :
  run = Some r ->
  exists done rest,
    stream net (trace r) = (done ++ rest)%list /\
    items r = first_by_title ∅ done /\
    (rest = [] \/ cap_reached max_items (length (items r)) = true).
Proof.
  intros [(p & s & Hreach & Hle & Hstep)|(p & Hreach & Hlt)]%run_cases.
  - destruct (reachable_first _ _ Hreach) as [H1 H2].
    pose proof (page_step_first p s H1 H2) as Hinv. by rewrite Hstep in Hinv.
  - destruct (reachable_first _ _ Hreach) as [H1 H2].
    exists (stream net (trace r)), []. rewrite app_nil_r. auto.
Qed.

(** *** Requests against records *)

Lemma step_grows page st :
  match step page st with
  | NextPage st' => length (items st) < length (items st')
  | Break r => length (items st) <= length (items r)
  end.
Proof.
  destruct (page_step_spec keyword sleep_sec max_items net page st)
    as [(Hfail & evs & -> & Hevs)|Hok]; [done|].
  destruct Hok as (soup & its & sn & found & Hnet & Hscan & ->).
  destruct (scan_blocks_first _ _ _ _ _ _ _ _ Hscan)
    as (processed & rest & _ & -> & _ & Hfound & _).
  destruct (cap_reached _ _); simpl; [rewrite length_app; lia|].
  destruct (found =? 0)%nat eqn:Hzero; simpl; rewrite length_app; [lia|].
  apply Nat.eqb_neq in Hzero. lia.
Qed.

Lemma reachable_items_count page st :
  reachable page st -> (page - 1 <= Z.of_nat (length (items st)))%Z.
Proof.
  induction 1 as [|page st st' Hreach IH Hle Hstep]; [simpl; lia|].
  pose proof (step_grows page st) as Hgrow. rewrite Hstep in Hgrow. lia.
Qed.

(** *** The sleeps *)

Local Abbreviation sleeps_match := (sleeps_as_fetched net sleep_sec).

Lemma step_sleeps page st :
  sleeps_match (trace st) ->
  match step page st with
  | NextPage st' => sleeps_match (trace st')
  | Break r => sleeps_match (trace r)
  end.
Proof.
  unfold sleeps_as_fetched. intros Hst.
  destruct (page_step_spec keyword sleep_sec max_items net page st)
    as [(Hfail & evs & -> & Hevs)|Hok].
  - simpl. rewrite sleeps_app, gets_app, filter_app, Hst.
    assert (fetch_ok net (url_of page) = false) as Hbad.
    { unfold fetch_ok. destruct (net (url_of page)); [done|].
      by apply Z.eqb_neq. }
    destruct Hevs as [->|[code ->]]; simpl;
      rewrite filter_cons_False, app_nil_r by (by rewrite Hbad);
      by rewrite app_nil_r.
  - destruct Hok as (soup & its & sn & found & Hnet & _ & ->).
    assert (fetch_ok net (url_of page) = true) as Hgood.
    { unfold fetch_ok. by rewrite Hnet. }
    assert (sleeps_match
              (trace st ++
               [LogRequesting (url_of page); Get (url_of page); LogStatus 200;
                LogFound (length (find_product_blocks soup)) page;
                LogAdded found page (length its); Sleep sleep_sec])) as Hnew.
    { unfold sleeps_as_fetched. rewrite sleeps_app, gets_app, filter_app, Hst. simpl.
      rewrite filter_cons_True by done. rewrite length_app. simpl.
      rewrite Nat.add_1_r. by rewrite replicate_S_end. }
    destruct (cap_reached _ _); [done|]. by destruct (found =? 0)%nat.
Qed.

Lemma reachable_sleeps page st : reachable page st -> sleeps_match (trace st).
Proof.
  induction 1 as [|page st st' Hreach IH Hle Hstep]; [done|].
  pose proof (step_sleeps page st IH) as Hinv. by rewrite Hstep in Hinv.
Qed.

(** *** A page without new records *)



End CrawlMore.

(** One pass keeps, for every truthy title among the records, the first record
    that has it. *)
Lemma first_by_title_keeps l : forall sn d t,
  d ∈ l -> title d = Some t -> falsy t = false -> t ∉ sn ->
  exists k,
    k ∈ first_by_title sn l /\ title k = Some t /\ first_occurrence k l.
Proof.
  induction l as [|d0 l IH]; intros sn d t Hd Ht Hf Hsn;
    [by apply elem_of_nil in Hd|].
  destruct (decide (title d0 = Some t)) as [H0|H0].
  - exists d0. simpl. rewrite H0, Hf, bool_decide_eq_false_2 by done. simpl.
    split_and!; [by left|done|]. exists [], l. split; [done|].
    by intros d' ?%elem_of_nil.
  - assert (d ∈ l) as Hin.
    { apply elem_of_cons in Hd as [->|?]; [congruence|done]. }
    assert (forall sn', t ∉ sn' ->
              exists k, k ∈ first_by_title sn' l /\ title k = Some t
                        /\ first_occurrence k (d0 :: l)) as Hrest.
    { intros sn' Hsn'.
      destruct (IH sn' d t Hin Ht Hf Hsn') as (k & Hk & Htk & pre & post & -> & Hpre).
      exists k. split_and!; [done|done|].
      exists (d0 :: pre), post. split; [done|].
      intros d' [->|?]%elem_of_cons; [congruence|by apply Hpre]. }
    simpl. destruct (title d0) as [t0|] eqn:Ht0; [|by apply Hrest].
    destruct (falsy t0 || bool_decide (t0 ∈ sn)); [by apply Hrest|].
    destruct (Hrest ({[ t0 ]} ∪ sn)) as (k & Hk & Hrestk).
    { apply not_elem_of_union. split; [|done].
      apply not_elem_of_singleton. congruence. }
    exists k. split; [by right|done].
Qed.

(** C1.  Every run returns, and in the sequence it returns no two records
    have the same title: every title in it is truthy and the record kept for
    it is the first one with that title among the records of the pages
    fetched, in page-then-block order.  The first occurrence wins: the
    sequence is what one pass over those records keeps (the first record of
    every truthy title, and one for each such title), all of it when the run
    does not end on the cap, and its first [m] records under a cap
    [m >= 1]. *)
Theorem titles_unique_first_wins keyword max_pages sleep_sec max_items net :
  exists r,
    scrape_amazon_search keyword max_pages sleep_sec max_items net = Some r /\
    NoDup (map title (items r)) /\
    (forall d, d ∈ items r ->
       falsy_opt (title d) = false /\
       first_occurrence d (stream net (trace r))) /\
    (cap_reached max_items (length (items r)) = false ->
       items r = first_by_title ∅ (stream net (trace r)) /\
       forall d t,
         d ∈ stream net (trace r) -> title d = Some t -> falsy t = false ->
         exists k,
           k ∈ items r /\ title k = Some t /\
           first_occurrence k (stream net (trace r))) /\
    (forall m, max_items = Some m -> (1 <= m)%Z ->
       items r = take (Z.to_nat m) (first_by_title ∅ (stream net (trace r)))) /\
    (forall l d t,
       d ∈ l -> title d = Some t -> falsy t = false ->
       exists k,
         k ∈ first_by_title ∅ l /\ title k = Some t /\ first_occurrence k l).
Proof.
  destruct (run_returns keyword max_pages sleep_sec max_items net) as [r Hr].
  exists r. split; [done|].
  destruct (run_inv _ _ _ _ _ _ Hr) as (sn & done & rest & Hall & Hinv & _).
  destruct (run_first _ _ _ _ _ _ Hr) as (done' & rest' & Hall' & Hitems & Hrest).
  split_and!.
  - by apply (inv_nodup _ _ _ Hinv).
  - intros d Hd. split; [by apply (inv_truthy _ _ _ Hinv)|].
    rewrite Hall. by apply first_occurrence_app, (inv_first _ _ _ Hinv).
  - intros Hcap. destruct Hrest as [->|?]; [|congruence].
    rewrite app_nil_r in Hall'. rewrite Hall', Hitems. split; [done|].
    intros d t Hd Ht Hf. by apply (first_by_title_keeps _ ∅ d t).
  - intros m Hm H1.
    destruct (run_within_cap _ _ _ _ _ m r Hm H1 Hr) as [Hlen _].
    rewrite Hall'. destruct Hrest as [->|Hcap].
    + rewrite app_nil_r, <- Hitems. rewrite take_ge; [done|lia].
    + rewrite Hm in Hcap. apply (cap_reached_set m _ H1) in Hcap.
      rewrite first_by_title_app, <- Hitems.
      rewrite take_app_length'; [done|lia].
  - intros l d t Hd Ht Hf. by apply (first_by_title_keeps _ ∅ d t).
Qed.

Lemma titles_unique_first_wins_witness :
  exists k,
    k ∈ first_by_title ∅ (map extract_from_block [titled "A"; titled "B"; titled "A"])
    /\ title k = Some "B"
    /\ first_occurrence k (map extract_from_block [titled "A"; titled "B"; titled "A"]).
Proof.
  destruct (titles_unique_first_wins "rocq books" 2 0%Q None two_pages)
    as (r & _ & _ & _ & _ & _ & Hkeeps).
  apply (Hkeeps _ (extract_from_block (titled "B")) "B").
  - right. left.
  - vm_compute. reflexivity.
  - reflexivity.
Defined.

(** X11.  The records returned are the records of the pages fetched, in
    page-then-block order, that one pass keeping the first record of every
    truthy title keeps: all of them when the run does not end on the cap, and
    the first [m] of them under a cap [m >= 1]. *)
Theorem result_is_first_by_title keyword max_pages sleep_sec max_items net r :
  scrape_amazon_search keyword max_pages sleep_sec max_items net = Some r ->
  items r `sublist_of` stream net (trace r)
  /\ (cap_reached max_items (length (items r)) = false ->
      items r = first_by_title ∅ (stream net (trace r)))
  /\ (forall m, max_items = Some m -> (1 <= m)%Z ->
      items r = take (Z.to_nat m) (first_by_title ∅ (stream net (trace r)))).
Proof.
  intros Hr.
  destruct (run_first _ _ _ _ _ _ Hr) as (done & rest & Hall & Hitems & Hrest).
  rewrite Hall. split_and!.
  - rewrite Hitems. etrans; [apply first_by_title_sublist|].
    by apply sublist_inserts_r.
  - intros Hcap. destruct Hrest as [->|?]; [|congruence].
    by rewrite app_nil_r.
  - intros m Hm H1.
    destruct (run_within_cap _ _ _ _ _ m r Hm H1 Hr) as [Hlen _].
    destruct Hrest as [->|Hcap].
    + rewrite app_nil_r, <- Hitems. rewrite take_ge; [done|lia].
    + rewrite Hm in Hcap. apply (cap_reached_set m _ H1) in Hcap.
      rewrite first_by_title_app, <- Hitems.
      rewrite take_app_length'; [done|lia].
Qed.

Lemma result_is_first_by_title_witness :
  items (default start
           (scrape_amazon_search "rocq books" 5 1%Q (Some 2%Z) two_pages))
  = take (Z.to_nat 2)
      (first_by_title ∅
         (stream two_pages
            (trace (default start
                      (scrape_amazon_search "rocq books" 5 1%Q (Some 2%Z)
                         two_pages))))).
Proof.
  apply (proj2 (proj2 (result_is_first_by_title "rocq books" 5 1%Q (Some 2%Z)
                         two_pages _ ltac:(vm_compute; reflexivity)))
           2%Z eq_refl).
  lia.
Defined.

(** X12.  A run requests at most one page more than it returns records: every
    page but the last one requested gave at least one new record. *)
Theorem requests_bounded_by_records keyword max_pages sleep_sec max_items net r :
  scrape_amazon_search keyword max_pages sleep_sec max_items net = Some r ->
  length (gets (trace r)) <= S (length (items r)).
Proof.
  intros [(p & s & Hreach & Hle & Hstep)|(p & Hreach & Hlt)]%run_cases.
  - rewrite (break_gets _ _ _ _ _ _ _ Hstep), length_app. simpl.
    pose proof (reachable_gets _ _ _ _ _ _ _ Hreach).
    pose proof (reachable_items_count _ _ _ _ _ _ _ Hreach).
    pose proof (step_grows keyword sleep_sec max_items net p s) as Hgrow.
    rewrite Hstep in Hgrow. lia.
  - pose proof (reachable_gets _ _ _ _ _ _ _ Hreach).
    pose proof (reachable_items_count _ _ _ _ _ _ _ Hreach). lia.
Qed.

Lemma requests_bounded_by_records_witness :
  length (gets (trace (default start
                         (scrape_amazon_search "nothing" 3 1%Q None two_pages))))
  <= S (length (items (default start
                         (scrape_amazon_search "nothing" 3 1%Q None two_pages)))).
Proof.
  apply (requests_bounded_by_records "nothing" 3 1%Q None two_pages).
  vm_compute. reflexivity.
Defined.

(** X13.  A run sleeps [sleep_sec] once for every page it fetched with success,
    the last one included, and never after a fetch that failed. *)
Theorem one_sleep_per_fetched_page keyword max_pages sleep_sec max_items net r :
  scrape_amazon_search keyword max_pages sleep_sec max_items net = Some r ->
  sleeps (trace r)
  = replicate (length (filter (fun u => fetch_ok net u = true) (gets (trace r))))
              sleep_sec.
Proof.
  intros [(p & s & Hreach & Hle & Hstep)|(p & Hreach & Hlt)]%run_cases.
  - pose proof (step_sleeps keyword sleep_sec max_items net p s
                  (reachable_sleeps _ _ _ _ _ _ _ Hreach)) as Hinv.
    by rewrite Hstep in Hinv.
  - by apply (reachable_sleeps _ _ _ _ _ _ _ Hreach).
Qed.

Lemma one_sleep_per_fetched_page_witness :
  sleeps (trace (default start
                   (scrape_amazon_search "rocq books" 3 1%Q None failing_second_page)))
  = [1%Q].
Proof.
  rewrite (one_sleep_per_fetched_page "rocq books" 3 1%Q None failing_second_page).
  - vm_compute. reflexivity.
  - vm_compute. reflexivity.
Defined.



(** ** [parse_rating] on plain decimals *)


